(** * Brandon: the query-time pipeline, embedded in Rocq

    The development follows the TypeScript sources of the repository:

    - [RateLimit]  : [src/lib/rate-limit.ts] (the per-identity window store);
    - [Auth]       : [src/lib/auth-helpers.ts] (role lookup and the admin gate);
    - [Ranker]     : the recency re-ranking snippet of
                     [src/Claude_master-prompt.md], section 7.4, step 11;
    - [Ranker64]   : the same snippet in binary64 arithmetic, to run it
                     with the numbers of the runtime;
    - [Types]      : the Zod schemas of [lib/types] that validate a chat
                     response, over JSON values;
    - [JsonText]   : a reader of JSON text, to run examples;
    - [Gemini]     : [generateChatResponse] of [src/lib/gemini.ts] and of the
                     later revision of that file;
    - [ChatTypes]  : the Zod schema of a chat request;
    - [Pinecone]   : [queryVectors] of [src/lib/pinecone.ts];
    - [ChatRoute]  : the chat endpoint, [app/api/chat/route.ts], as a
                     program in a state and exception monad over the
                     stream, the calls to its collaborators and the
                     rate-limit store;
    - [Vision]     : [analyzeImage] of [src/lib/gemini.ts] with its schema;
    - [ImageProcessing] : [generatePreview] of [lib/image-processing];
    - [DescribeRoute] : [app/api/admin/generate-description/route.ts], with
                     the calls it makes to the storage buckets;
    - [HistoryRoute] : [app/api/history/route.ts];
    - [Js], [Markdown], [Routes] : truthiness tests, code blocks and sample
                     requests shared by the above.

    The properties follow the definitions, one module of facts per module
    of definitions, then the laws that span several of them.

    A route is modelled with its collaborators (the Supabase client, the
    embedder, the index, the models, the image encoder) as fields of an
    environment record: each answers as a function of its arguments, and
    the properties hold for every environment.

    Conventions.  [Date.now()] is an explicit argument [now : Z]
    (milliseconds).  The module-level [store] object of the rate limiter is
    threaded through [checkRateLimit] as an explicit state.  A thrown
    exception is a constructor of the result type.

    The scores of the ranker are JavaScript numbers.  [Ranker] computes
    them with exact rationals, plus the one value [NaN] that a missing or
    malformed operand produces; rounding and the infinities are left out
    there, and the properties of the ranker are proved on that model.
    [Ranker64] runs the snippet on binary64 floats. *)

From Stdlib Require Import ZArith Lia QArith Qcanon Sorted Ascii Floats Uint63.
From Stdlib Require Import DecimalString.
From stdpp Require Import numbers gmap strings fin_maps list.

Local Open Scope Z_scope.

(** ** Rate limiter ([src/lib/rate-limit.ts]) *)

Module RateLimit.

(** A field of the returned record as the runtime has it.  [lib/types]
    declares the three fields of [RateLimitInfo] as [number]; what is read
    off a member that is not a window is [undefined], and arithmetic on
    [undefined] gives [NaN].  An integer is read as the number it is. *)
Inductive num : Type :=
| Undefined
| NaN
| Num (z : Z).

Coercion Num : Z >-> num.

(** [RateLimitInfo] of [lib/types]. *)
Record RateLimitInfo := mkInfo { limit : Z; remaining : num; reset : num }.

(** One entry of [RateLimitStore]. *)
Record window := mkWindow { count : Z; resetTime : Z }.

Record RateLimitConfig := mkConfig { windowMs : Z; maxRequests : Z }.

Definition DEFAULT_RATE_LIMIT : RateLimitConfig :=
  {| windowMs := 60 * 1000; maxRequests := 20 |}.

#[global] Instance window_eq_dec : EqDecision window.
Proof. solve_decision. Defined.

(** The store is the object literal [{}] used as a map from identifiers
    to windows: the map below holds its own properties.  Like every
    object it inherits the members of [Object.prototype], which
    [store[key]] finds when [key] is not an own property. *)
Abbreviation RateLimitStore := (gmap string window).

Definition inherited_names : list string :=
  [ "constructor"; "__defineGetter__"; "__defineSetter__"; "hasOwnProperty";
    "__lookupGetter__"; "__lookupSetter__"; "isPrototypeOf";
    "propertyIsEnumerable"; "toString"; "valueOf"; "__proto__";
    "toLocaleString" ].

Definition inherited (key : string) : bool :=
  existsb (String.eqb key) inherited_names.

(** [store[key]]: a window of the store, a member inherited from
    [Object.prototype] (a function, or the prototype itself for
    [__proto__]: truthy, with no [resetTime] and no [count] to begin
    with), or [undefined]. *)
Inductive property : Type :=
| Own (w : window)
| Inherited
| Missing.

Definition get (store : RateLimitStore) (key : string) : property :=
  match store !! key with
  | Some w => Own w
  | None => if inherited key then Inherited else Missing
  end.

(** [if (store[key] && store[key].resetTime < now) delete store[key]].
    On an inherited member [resetTime] is [undefined], and
    [undefined < now] is false. *)
Definition cleanup (now : Z) (key : string) (store : RateLimitStore)
  : RateLimitStore :=
  match get store key with
  | Own w => if resetTime w <? now then delete key store else store
  | Inherited => store
  | Missing => store
  end.

(** [if (!store[key]) store[key] = { count: 0, resetTime: now + windowMs }] *)
Definition initialize (now : Z) (config : RateLimitConfig) (key : string)
    (store : RateLimitStore) : RateLimitStore :=
  match get store key with
  | Own _ => store
  | Inherited => store
  | Missing => <[key := {| count := 0; resetTime := now + windowMs config |}]> store
  end.

(** [limitInfo.count++], where [limitInfo] aliases [store[key]]: the
    increment is written back to the store.  When [limitInfo] is an
    inherited member the write lands on that member and leaves the own
    properties of the store as they are; the member's [count] is [NaN]
    from then on, as [undefined + 1] is.  (For [__proto__] the member is
    [Object.prototype] itself, and every object then inherits a [count]
    that is [NaN]: a falsy value, which the two tests above read as they
    read [undefined].) *)
Definition increment (key : string) (store : RateLimitStore) : RateLimitStore :=
  alter (fun w => {| count := count w + 1; resetTime := resetTime w |}) key store.

(** [checkRateLimit(identifier, config)] at clock reading [now], from the
    store [store]: the returned record and the store it leaves behind.
    After [initialize], [store[key]] is never [undefined]
    ([initialize_get] below); the [Missing] branch stands for what the
    source can never see there. *)
Definition checkRateLimit (now : Z) (identifier : string)
    (config : RateLimitConfig) (store : RateLimitStore)
  : RateLimitInfo * RateLimitStore :=
  let key := identifier in
  let store := cleanup now key store in
  let store := initialize now config key store in
  let store := increment key store in
  match get store key with
  | Own limitInfo =>
      let remaining := Z.max 0 (maxRequests config - count limitInfo) in
      ({| limit := maxRequests config;
          remaining := remaining;
          reset := resetTime limitInfo |}, store)
  | Inherited =>
      (* Math.max(0, maxRequests - NaN), and a resetTime that is not there *)
      ({| limit := maxRequests config; remaining := NaN; reset := Undefined |},
       store)
  | Missing =>
      ({| limit := maxRequests config; remaining := NaN; reset := Undefined |},
       store)
  end.

(** [info.remaining <= 0]; a comparison with [NaN] is false. *)
Definition isRateLimited (info : RateLimitInfo) : bool :=
  match remaining info with
  | Num remaining => remaining <=? 0
  | NaN => false
  | Undefined => false
  end.

(** The window of an identity after one call, from the entry
    ([store[key]], possibly absent) the call found: the closed form of
    [cleanup], [initialize] and [increment] at that key. *)
Definition entry_after (now : Z) (config : RateLimitConfig)
    (entry : option window) : window :=
  match entry with
  | Some w =>
      if resetTime w <? now
      then {| count := 1; resetTime := now + windowMs config |}
      else {| count := count w + 1; resetTime := resetTime w |}
  | None => {| count := 1; resetTime := now + windowMs config |}
  end.

(** The own entry of [key] after one call, from the own entry the call
    found ([None]: no own property): the closed form of [cleanup],
    [initialize] and [increment] for any key.  A name that is inherited is
    never given a window, and loses the one it has when that has expired. *)
Definition entry_update (now : Z) (config : RateLimitConfig) (key : string)
    (entry : option window) : option window :=
  match entry with
  | Some w =>
      if resetTime w <? now
      then if inherited key then None
           else Some {| count := 1; resetTime := now + windowMs config |}
      else Some {| count := count w + 1; resetTime := resetTime w |}
  | None =>
      if inherited key then None
      else Some {| count := 1; resetTime := now + windowMs config |}
  end.

(** The record a call returns when it ends on an inherited member. *)
Definition info_inherited (config : RateLimitConfig) : RateLimitInfo :=
  {| limit := maxRequests config; remaining := NaN; reset := Undefined |}.

(** The call at [now] recreates the window of [key]: afterwards the store
    holds a window that has counted this call alone and ends one full
    [windowMs] after [now]. *)
Definition resets (now : Z) (key : string) (config : RateLimitConfig)
    (store : RateLimitStore) : Prop :=
  (checkRateLimit now key config store).2 !! key
  = Some {| count := 1; resetTime := now + windowMs config |}.

(** The record a call returns when it leaves the window [w] behind. *)
Definition info_of (config : RateLimitConfig) (w : window) : RateLimitInfo :=
  {| limit := maxRequests config;
     remaining := Z.max 0 (maxRequests config - count w);
     reset := resetTime w |}.

(** A client issuing calls for one identity at the clock readings [times],
    in order; the infos come back in call order. *)
Fixpoint calls (times : list Z) (identifier : string)
    (config : RateLimitConfig) (store : RateLimitStore)
  : list RateLimitInfo * RateLimitStore :=
  match times with
  | [] => ([], store)
  | now :: rest =>
      let '(info, store) := checkRateLimit now identifier config store in
      let '(infos, store) := calls rest identifier config store in
      (info :: infos, store)
  end.

(** The stores the process can be in: the empty object the module starts
    with, and whatever a call leaves behind. *)
Inductive reachable : RateLimitStore -> Prop :=
| reachable_init : reachable ∅
| reachable_call now identifier config store :
    reachable store ->
    reachable (checkRateLimit now identifier config store).2.

(** Every window the store holds has counted at least one call. *)
Definition counted (store : RateLimitStore) : Prop :=
  forall k w, store !! k = Some w -> 1 <= count w.

End RateLimit.

(** ** Role resolution ([src/lib/auth-helpers.ts]) *)

Module Auth.

(** What an [async] helper settles to: the returned value, or the
    [AuthError] it throws, with its message. *)
Inductive outcome (A : Type) : Type :=
| Return (a : A)
| ThrowAuthError (message : string).
Arguments Return {A} a.
Arguments ThrowAuthError {A} message.

Definition bind {A B : Type} (m : outcome A) (k : A -> outcome B) : outcome B :=
  match m with
  | Return a => k a
  | ThrowAuthError message => ThrowAuthError message
  end.

Record User := mkUser { id : string }.

(** A row of [user_roles] as selected by [.select('role')].  The column is
    cast to [UserRole] unchecked ([data.role as UserRole]), so at run time
    it is whatever string is stored. *)
Record RoleRow := mkRow { role : string }.

(** The [{ data, error }] pairs the Supabase client answers with; [None]
    is JavaScript's [null]. *)
Record UserResponse := mkUserResponse {
  user : option User;
  auth_error : option string
}.

Record RoleResponse := mkRoleResponse {
  data : option RoleRow;
  error : option string
}.

(** The client, as far as these helpers observe it: the answer of
    [supabase.auth.getUser()] and, per user id, the answer of
    [from('user_roles').select('role').eq('user_id', userId).single()]. *)
Record SupabaseClient := mkClient {
  auth_getUser : UserResponse;
  user_roles_single : string -> RoleResponse
}.

Definition requireAuth (supabase : SupabaseClient) : outcome User :=
  let r := auth_getUser supabase in
  match auth_error r, user r with
  | None, Some u => Return u
  | _, _ => ThrowAuthError "Not authenticated"
  end.

Definition getUserRole (supabase : SupabaseClient) (userId : string) : string :=
  let r := user_roles_single supabase userId in
  match error r, data r with
  | None, Some d => role d
  | _, _ => "user" (* Default to user role if not found *)
  end.

Definition requireAdmin (supabase : SupabaseClient) : outcome User :=
  bind (requireAuth supabase) (fun user =>
    let role := getUserRole supabase (id user) in
    if negb (String.eqb role "admin")
    then ThrowAuthError "Admin access required"
    else Return user).

Definition isAdmin (supabase : SupabaseClient) (userId : string) : bool :=
  String.eqb (getUserRole supabase userId) "admin".

(** The lookup for [userId] came back without error, with a row whose
    stored role is ["admin"]. *)
Definition stored_admin (supabase : SupabaseClient) (userId : string) : Prop :=
  exists d, user_roles_single supabase userId
            = {| data := Some d; error := None |} /\ role d = "admin".

(** Sample data: a signed-in user [u1] and a client whose [user_roles]
    table has the given role for [u1], or no row at all. *)
Definition u1 : User := {| id := "u1" |}.

Definition client_with (stored : option string) : SupabaseClient :=
  {| auth_getUser := {| user := Some u1; auth_error := None |};
     user_roles_single := fun userId =>
       match stored with
       | Some r =>
           if String.eqb userId "u1"
           then {| data := Some {| role := r |}; error := None |}
           else {| data := None; error := Some "PGRST116" |}
       | None => {| data := None; error := Some "PGRST116" |}
       end |}.

End Auth.

(** ** Hybrid ranker (the re-ranking snippet, step 11 of section 7.4) *)

Module Ranker.

(** A JavaScript number: a rational, or [NaN]. *)
Inductive number : Type :=
| NaN
| Num (q : Qc).

#[global] Instance number_eq_dec : EqDecision number.
Proof.
  intros [|x] [|y]; try (right; discriminate); [left; reflexivity|].
  destruct (decide (x = y)); [left; congruence|right; congruence].
Defined.

Definition lift2 (f : Qc -> Qc -> Qc) (a b : number) : number :=
  match a, b with
  | Num x, Num y => Num (f x y)
  | _, _ => NaN
  end.

Definition add : number -> number -> number := lift2 Qcplus.
Definition sub : number -> number -> number := lift2 Qcminus.
Definition mul : number -> number -> number := lift2 Qcmult.

(** [a / b] for a non-zero divisor; the snippet divides by the constant
    [THREE_YEARS_MS] only. *)
Definition div : number -> number -> number := lift2 Qcdiv.

Definition Qc_ltb (x y : Qc) : bool := negb (Qle_bool y x).

(** [Math.max(a, b)]: [NaN] as soon as one argument is. *)
Definition Math_max (a b : number) : number :=
  lift2 (fun x y => if Qc_ltb x y then y else x) a b.

Definition of_Z (n : Z) : number := Num (Qc_of_Z n).

(** The part of [PineconeMetadata] the ranker reads.  A field that is
    missing or is not a number reads as [NaN] in the arithmetic below. *)
Record PineconeMetadata := mkMetadata { image_purchase_date : number }.

(** A match returned by the index query. *)
Record candidate := mkCandidate {
  id : string;
  score : number;
  metadata : PineconeMetadata
}.

(** A candidate after the [forEach]: the same object, with its
    [combinedScore] property set. *)
Record ranked := mkRanked {
  source : candidate;
  combinedScore : number
}.

#[global] Instance metadata_eq_dec : EqDecision PineconeMetadata.
Proof. solve_decision. Defined.

#[global] Instance candidate_eq_dec : EqDecision candidate.
Proof. solve_decision. Defined.

#[global] Instance ranked_eq_dec : EqDecision ranked.
Proof. solve_decision. Defined.

Definition THREE_YEARS_MS : number := of_Z (3 * 365 * 24 * 60 * 60 * 1000).

(** [0.8], the semantic similarity weight. *)
Definition ALPHA : number := Num (Q2Qc (8 # 10)).

Definition age (now : Z) (c : candidate) : number :=
  let purchaseDateMs := image_purchase_date (metadata c) in
  sub (of_Z now) purchaseDateMs.

Definition recencyScore (now : Z) (c : candidate) : number :=
  Math_max (of_Z 0) (sub (of_Z 1) (div (age now c) THREE_YEARS_MS)).

(** The body of the [forEach]. *)
Definition assign (now : Z) (c : candidate) : ranked :=
  {| source := c;
     combinedScore :=
       add (mul ALPHA (score c))
           (mul (sub (of_Z 1) ALPHA) (recencyScore now c)) |}.

(** The comparator handed to [sort]: [(a, b) => b.combinedScore - a.combinedScore]. *)
Definition comparefn (a b : ranked) : number :=
  sub (combinedScore b) (combinedScore a).

(** [Array.prototype.sort(comparefn)].  The sort is stable, and it moves
    [a] behind [b] only on a comparator result above zero; a result that
    is zero, negative or [NaN] leaves [a] in front.  It is written as a
    stable insertion sort; the order the runtime gives to operands that
    compare as [NaN] is implementation-defined and is not relied upon. *)
Section Sort.
Context {A : Type} (comparefn : A -> A -> number).

Definition positive (v : number) : bool :=
  match v with
  | Num q => Qc_ltb 0 q
  | NaN => false
  end.

Fixpoint insert (a : A) (l : list A) : list A :=
  match l with
  | [] => [a]
  | b :: l' => if positive (comparefn a b) then b :: insert a l' else a :: l
  end.

Definition sort (l : list A) : list A := foldr insert [] l.

End Sort.

(** The snippet: score every candidate, sort by [combinedScore]
    descending, keep the top 10 ([slice(0, 10)]). *)
Definition rank (now : Z) (candidates : list candidate) : list ranked :=
  let candidates := map (assign now) candidates in
  let candidates := sort comparefn candidates in
  let topCandidates := take 10 candidates in
  topCandidates.

(** Orders on numbers: [geq a b] is [a >= b] between two rationals, and is
    false as soon as one side is [NaN]. *)
Definition geq (a b : number) : Prop :=
  match a, b with
  | Num x, Num y => (y <= x)%Qc
  | _, _ => False
  end.

Definition is_num (a : number) : Prop :=
  match a with Num _ => True | NaN => False end.

(** A candidate whose similarity score and acquisition timestamp are both
    numbers. *)
Definition well_formed (c : candidate) : Prop :=
  is_num (score c) /\ is_num (image_purchase_date (metadata c)).

(** Sample data: a clock reading, and candidates built from an id, a
    similarity and an acquisition time. *)
Definition sample_now : Z := 1700000000000.

Definition FIVE_YEARS_MS : Z := 5 * 365 * 24 * 60 * 60 * 1000.

Definition mk (id : string) (similarity : Qc) (purchaseDateMs : number)
  : candidate :=
  {| id := id;
     score := Num similarity;
     metadata := {| image_purchase_date := purchaseDateMs |} |}.

Definition sample_candidates : list candidate :=
  [ mk "a" (Q2Qc (5 # 10)) (of_Z (sample_now - FIVE_YEARS_MS));
    mk "b" (Q2Qc (9 # 10)) (of_Z (sample_now - FIVE_YEARS_MS));
    mk "c" (Q2Qc (5 # 10)) (of_Z sample_now) ].

(** Scenario B: 29 candidates acquired five years ago, then one acquired
    now, all with similarity 0.5. *)
Definition scenario_B_older : list candidate :=
  replicate 29 (mk "old" (Q2Qc (5 # 10)) (of_Z (sample_now - FIVE_YEARS_MS))).

Definition scenario_B_fresh : candidate :=
  mk "new" (Q2Qc (5 # 10)) (of_Z sample_now).

(** A candidate whose acquisition timestamp is not a number, next to a
    well-formed one. *)
Definition malformed : candidate := mk "bad" (Q2Qc (5 # 10)) NaN.

Definition with_malformed : list candidate :=
  [ mk "good" (Q2Qc (9 # 10)) (of_Z sample_now); malformed ].

End Ranker.

(** ** The ranker in binary64 *)

Module Ranker64.

Definition of_Z (n : Z) : float :=
  if n <? 0 then PrimFloat.opp (PrimFloat.of_uint63 (Uint63.of_Z (- n)))
  else PrimFloat.of_uint63 (Uint63.of_Z n).

(** [Math.max(a, b)] on operands other than zeros of opposite signs. *)
Definition Math_max (a b : float) : float :=
  if PrimFloat.is_nan a then a
  else if PrimFloat.is_nan b then b
  else if PrimFloat.ltb a b then b else a.

Record PineconeMetadata := mkMetadata { image_purchase_date : float }.

Record candidate := mkCandidate {
  id : string;
  score : float;
  metadata : PineconeMetadata
}.

Record ranked := mkRanked {
  source : candidate;
  combinedScore : float
}.

Definition THREE_YEARS_MS : float := of_Z (3 * 365 * 24 * 60 * 60 * 1000).

(** The double that the literal [0.8] denotes. *)
Definition ALPHA : float := 0x1.999999999999ap-1%float.

Definition age (now : Z) (c : candidate) : float :=
  let purchaseDateMs := image_purchase_date (metadata c) in
  PrimFloat.sub (of_Z now) purchaseDateMs.

Definition recencyScore (now : Z) (c : candidate) : float :=
  Math_max (of_Z 0)
    (PrimFloat.sub (of_Z 1) (PrimFloat.div (age now c) THREE_YEARS_MS)).

Definition assign (now : Z) (c : candidate) : ranked :=
  {| source := c;
     combinedScore :=
       PrimFloat.add
         (PrimFloat.mul ALPHA (score c))
         (PrimFloat.mul (PrimFloat.sub (of_Z 1) ALPHA) (recencyScore now c)) |}.

Definition comparefn (a b : ranked) : float :=
  PrimFloat.sub (combinedScore b) (combinedScore a).

(** [v > 0]; false on [NaN]. *)
Definition positive (v : float) : bool := PrimFloat.ltb (of_Z 0) v.

Fixpoint insert (a : ranked) (l : list ranked) : list ranked :=
  match l with
  | [] => [a]
  | b :: l' => if positive (comparefn a b) then b :: insert a l' else a :: l
  end.

Definition sort (l : list ranked) : list ranked := foldr insert [] l.

Definition rank (now : Z) (candidates : list candidate) : list ranked :=
  let candidates := map (assign now) candidates in
  let candidates := sort candidates in
  let topCandidates := take 10 candidates in
  topCandidates.

(** The sample data of [Ranker], in binary64. *)
Definition mk (id : string) (similarity : float) (purchaseDateMs : float)
  : candidate :=
  {| id := id;
     score := similarity;
     metadata := {| image_purchase_date := purchaseDateMs |} |}.

Definition sample_candidates : list candidate :=
  [ mk "a" 0.5 (of_Z (Ranker.sample_now - Ranker.FIVE_YEARS_MS));
    mk "b" 0x1.ccccccccccccdp-1 (of_Z (Ranker.sample_now - Ranker.FIVE_YEARS_MS));
    mk "c" 0.5 (of_Z Ranker.sample_now) ].

Definition scenario_B_older : list candidate :=
  replicate 29 (mk "old" 0.5 (of_Z (Ranker.sample_now - Ranker.FIVE_YEARS_MS))).

Definition scenario_B_fresh : candidate := mk "new" 0.5 (of_Z Ranker.sample_now).

Definition malformed : candidate := mk "bad" 0.5 PrimFloat.nan.

Definition with_malformed : list candidate :=
  [ mk "good" 0x1.ccccccccccccdp-1 (of_Z Ranker.sample_now); malformed ].

End Ranker64.

(** ** JSON values and the Zod schemas of [lib/types] *)

Module Types.

(** What [JSON.parse] returns.  A number keeps its literal: no schema
    below reads one. *)
#[local] Unset Elimination Schemes.
Inductive json : Type :=
| JNull
| JBool (b : bool)
| JNumber (literal : string)
| JString (s : string)
| JArray (items : list json)
| JObject (members : list (string * json)).
#[local] Set Elimination Schemes.

(** [o[key]], for an object given by its members in source order: a later
    member overrides an earlier one with the same key; [None] is
    [undefined]. *)
Fixpoint field (key : string) (members : list (string * json)) : option json :=
  match members with
  | [] => None
  | (k, v) :: rest =>
      match field key rest with
      | Some v' => Some v'
      | None => if String.eqb k key then Some v else None
      end
  end.

(** A value of [z.string().optional().nullable()]. *)
Inductive optional_nullable : Type :=
| Absent
| Null
| Present (s : string).

(** [BrandonAsset = z.infer<typeof BrandonAssetSchema>] *)
Record BrandonAsset := mkAsset {
  id : string;
  dam_id : optional_nullable;
  file_name : optional_nullable;
  url : optional_nullable;
  preview_path : string;
  label : string;
  reason : string
}.

(** [GeminiChatResponse = z.infer<typeof GeminiChatResponseSchema>] *)
Record GeminiChatResponse := mkResponse {
  assistant_message : string;
  assets : list BrandonAsset
}.

(** The layout [.uuid()] checks: 8-4-4-4-12 hexadecimal digits, either
    case. *)
Definition is_hex (c : ascii) : bool :=
  let n := nat_of_ascii c in
  ((48 <=? n) && (n <=? 57) || (97 <=? n) && (n <=? 102)
   || (65 <=? n) && (n <=? 70))%nat.

Definition is_dash_position (i : nat) : bool :=
  ((i =? 8) || (i =? 13) || (i =? 18) || (i =? 23))%nat.

Fixpoint uuid_from (i : nat) (s : string) : bool :=
  match s with
  | EmptyString => (i =? 36)%nat
  | String c rest =>
      (if is_dash_position i then Ascii.eqb c "-" else is_hex c)
      && uuid_from (S i) rest
  end.

Definition is_uuid (s : string) : bool := uuid_from 0 s.

(** The schema combinators in use; the input is [None] for [undefined].
    [None] as a result is a [ZodError]. *)
Definition z_string (input : option json) : option string :=
  match input with
  | Some (JString s) => Some s
  | _ => None
  end.

Definition z_string_uuid (input : option json) : option string :=
  s ← z_string input; if is_uuid s then Some s else None.

Definition z_string_optional_nullable (input : option json)
  : option optional_nullable :=
  match input with
  | None => Some Absent
  | Some JNull => Some Null
  | Some (JString s) => Some (Present s)
  | Some _ => None
  end.

Definition z_array {A : Type} (item : option json -> option A)
    (input : option json) : option (list A) :=
  match input with
  | Some (JArray items) => mapM (fun j => item (Some j)) items
  | _ => None
  end.

(** [BrandonAssetSchema.parse]: a [z.object], which accepts an object,
    reads its declared keys and strips every other key. *)
Definition BrandonAssetSchema (input : option json) : option BrandonAsset :=
  match input with
  | Some (JObject o) =>
      id ← z_string_uuid (field "id" o);
      dam_id ← z_string_optional_nullable (field "dam_id" o);
      file_name ← z_string_optional_nullable (field "file_name" o);
      url ← z_string_optional_nullable (field "url" o);
      preview_path ← z_string (field "preview_path" o);
      label ← z_string (field "label" o);
      reason ← z_string (field "reason" o);
      Some {| id := id; dam_id := dam_id; file_name := file_name; url := url;
              preview_path := preview_path; label := label; reason := reason |}
  | _ => None
  end.

(** [GeminiChatResponseSchema.parse] *)
Definition GeminiChatResponseSchema (input : option json)
  : option GeminiChatResponse :=
  match input with
  | Some (JObject o) =>
      assistant_message ← z_string (field "assistant_message" o);
      assets ← z_array BrandonAssetSchema (field "assets" o);
      Some {| assistant_message := assistant_message; assets := assets |}
  | _ => None
  end.

(** The value of a validated field, back as JSON. *)
Definition json_of_optional (v : optional_nullable) : option json :=
  match v with
  | Absent => None
  | Null => Some JNull
  | Present s => Some (JString s)
  end.

(** [asset_of j a]: [a] is [j] read at the declared keys, each string
    taken as it stands in [j]. *)
Definition asset_of (j : json) (a : BrandonAsset) : Prop :=
  exists o, j = JObject o /\
    field "id" o = Some (JString (id a)) /\
    field "dam_id" o = json_of_optional (dam_id a) /\
    field "file_name" o = json_of_optional (file_name a) /\
    field "url" o = json_of_optional (url a) /\
    field "preview_path" o = Some (JString (preview_path a)) /\
    field "label" o = Some (JString (label a)) /\
    field "reason" o = Some (JString (reason a)).

Definition response_of (j : json) (r : GeminiChatResponse) : Prop :=
  exists o items, j = JObject o /\
    field "assistant_message" o = Some (JString (assistant_message r)) /\
    field "assets" o = Some (JArray items) /\
    Forall2 asset_of items (assets r).

End Types.

(** ** Reading JSON text

    A reader for the JSON grammar (ECMA-404), used to run the response
    generator on concrete replies.  The properties of the generator are
    proved for any [JSON.parse]; this is the instance the examples use. *)

Module JsonText.
Import Types.

Inductive token : Type :=
| TLBrace | TRBrace | TLBracket | TRBracket | TColon | TComma
| TString (s : string)
| TNumber (literal : string)
| TTrue | TFalse | TNull.

Definition DQUOTE : ascii := ascii_of_nat 34.

Definition is_digit (c : ascii) : bool :=
  let n := nat_of_ascii c in ((48 <=? n) && (n <=? 57))%nat.

Definition hex_value (c : ascii) : option nat :=
  let n := nat_of_ascii c in
  if ((48 <=? n) && (n <=? 57))%nat then Some (n - 48)%nat
  else if ((97 <=? n) && (n <=? 102))%nat then Some (n - 87)%nat
  else if ((65 <=? n) && (n <=? 70))%nat then Some (n - 55)%nat
  else None.

(** The UTF-8 bytes of a code unit given by a [\uXXXX] escape. *)
Definition utf8 (n : nat) : string :=
  if (n <? 128)%nat then String (ascii_of_nat n) EmptyString
  else if (n <? 2048)%nat then
    String (ascii_of_nat (192 + n / 64))
      (String (ascii_of_nat (128 + n mod 64)) EmptyString)
  else
    String (ascii_of_nat (224 + n / 4096))
      (String (ascii_of_nat (128 + (n / 64) mod 64))
         (String (ascii_of_nat (128 + n mod 64)) EmptyString)).

Definition unescape (c : ascii) : option ascii :=
  if Ascii.eqb c DQUOTE then Some DQUOTE
  else if Ascii.eqb c "\" then Some "\"%char
  else if Ascii.eqb c "/" then Some "/"%char
  else if Ascii.eqb c "b" then Some (ascii_of_nat 8)
  else if Ascii.eqb c "f" then Some (ascii_of_nat 12)
  else if Ascii.eqb c "n" then Some (ascii_of_nat 10)
  else if Ascii.eqb c "r" then Some (ascii_of_nat 13)
  else if Ascii.eqb c "t" then Some (ascii_of_nat 9)
  else None.

(** The characters of a string literal, from just after its opening quote:
    the decoded content and the text after the closing quote. *)
Fixpoint lex_string (s : string) : option (string * string) :=
  match s with
  | EmptyString => None
  | String c rest =>
      if Ascii.eqb c DQUOTE then Some (EmptyString, rest)
      else if Ascii.eqb c "\" then
        match rest with
        | String "u" (String h1 (String h2 (String h3 (String h4 rest')))) =>
            a ← hex_value h1; b ← hex_value h2;
            c ← hex_value h3; d ← hex_value h4;
            '(content, after) ← lex_string rest';
            Some (utf8 (((a * 16 + b) * 16 + c) * 16 + d) +:+ content, after)
        | String e rest' =>
            e' ← unescape e;
            '(content, after) ← lex_string rest';
            Some (String e' content, after)
        | EmptyString => None
        end
      else if (nat_of_ascii c <? 32)%nat then None
      else
        '(content, after) ← lex_string rest;
        Some (String c content, after)
  end.

(** The longest run of digits at the head of a text, and the rest. *)
Fixpoint digits (s : string) : string * string :=
  match s with
  | String c rest =>
      if is_digit c then let '(ds, after) := digits rest in (String c ds, after)
      else (EmptyString, s)
  | EmptyString => (EmptyString, EmptyString)
  end.

Definition some_digits (s : string) : option (string * string) :=
  match digits s with
  | (EmptyString, _) => None
  | (ds, after) => Some (ds, after)
  end.

(** A number literal: an optional minus sign; then a zero, or digits
    that do not start with a zero; then an optional fraction, a dot and
    digits; then an optional exponent, [e] or [E], a sign and digits. *)
Definition lex_number (s : string) : option (string * string) :=
  let '(sign, s) :=
    match s with
    | String "-" rest => ("-", rest)
    | _ => (EmptyString, s)
    end in
  '(int, s) ←
    match s with
    | String "0" rest => Some ("0", rest)
    | _ => some_digits s
    end;
  '(frac, s) ←
    match s with
    | String "." rest => '(ds, after) ← some_digits rest; Some ("." +:+ ds, after)
    | _ => Some (EmptyString, s)
    end;
  '(exp, s) ←
    match s with
    | String e rest =>
        if Ascii.eqb e "e" || Ascii.eqb e "E" then
          let '(esign, rest) :=
            match rest with
            | String "+" r => ("+", r)
            | String "-" r => ("-", r)
            | _ => (EmptyString, rest)
            end in
          '(ds, after) ← some_digits rest;
          Some (String e esign +:+ ds, after)
        else Some (EmptyString, s)
    | EmptyString => Some (EmptyString, s)
    end;
  Some (sign +:+ int +:+ frac +:+ exp, s).

Fixpoint skip (n : nat) (s : string) : string :=
  match n, s with
  | S k, String _ rest => skip k rest
  | _, _ => s
  end.

Definition is_json_space (c : ascii) : bool :=
  let n := nat_of_ascii c in
  ((n =? 32) || (n =? 9) || (n =? 10) || (n =? 13))%nat.

Fixpoint lex (fuel : nat) (s : string) : option (list token) :=
  match fuel with
  | O => None
  | S fuel =>
      match s with
      | EmptyString => Some []
      | String c rest =>
          if is_json_space c then lex fuel rest
          else if Ascii.eqb c "{" then cons TLBrace <$> lex fuel rest
          else if Ascii.eqb c "}" then cons TRBrace <$> lex fuel rest
          else if Ascii.eqb c "[" then cons TLBracket <$> lex fuel rest
          else if Ascii.eqb c "]" then cons TRBracket <$> lex fuel rest
          else if Ascii.eqb c ":" then cons TColon <$> lex fuel rest
          else if Ascii.eqb c "," then cons TComma <$> lex fuel rest
          else if Ascii.eqb c DQUOTE then
            '(content, after) ← lex_string rest;
            cons (TString content) <$> lex fuel after
          else if String.prefix "true" s then cons TTrue <$> lex fuel (skip 4 s)
          else if String.prefix "false" s then cons TFalse <$> lex fuel (skip 5 s)
          else if String.prefix "null" s then cons TNull <$> lex fuel (skip 4 s)
          else
            '(literal, after) ← lex_number s;
            cons (TNumber literal) <$> lex fuel after
      end
  end.

(** One value at the head of the tokens, and the tokens after it. *)
Fixpoint parse_value (fuel : nat) (ts : list token) : option (json * list token) :=
  match fuel with
  | O => None
  | S fuel =>
      match ts with
      | TNull :: rest => Some (JNull, rest)
      | TTrue :: rest => Some (JBool true, rest)
      | TFalse :: rest => Some (JBool false, rest)
      | TNumber literal :: rest => Some (JNumber literal, rest)
      | TString s :: rest => Some (JString s, rest)
      | TLBracket :: TRBracket :: rest => Some (JArray [], rest)
      | TLBracket :: rest =>
          '(items, rest) ← parse_elements fuel rest;
          Some (JArray items, rest)
      | TLBrace :: TRBrace :: rest => Some (JObject [], rest)
      | TLBrace :: rest =>
          '(members, rest) ← parse_members fuel rest;
          Some (JObject members, rest)
      | _ => None
      end
  end
with parse_elements (fuel : nat) (ts : list token)
  : option (list json * list token) :=
  match fuel with
  | O => None
  | S fuel =>
      '(item, rest) ← parse_value fuel ts;
      match rest with
      | TComma :: rest =>
          '(items, rest) ← parse_elements fuel rest;
          Some (item :: items, rest)
      | TRBracket :: rest => Some ([item], rest)
      | _ => None
      end
  end
with parse_members (fuel : nat) (ts : list token)
  : option (list (string * json) * list token) :=
  match fuel with
  | O => None
  | S fuel =>
      match ts with
      | TString key :: TColon :: rest =>
          '(value, rest) ← parse_value fuel rest;
          match rest with
          | TComma :: rest =>
              '(members, rest) ← parse_members fuel rest;
              Some ((key, value) :: members, rest)
          | TRBrace :: rest => Some ([(key, value)], rest)
          | _ => None
          end
      | _ => None
      end
  end.

Definition parse (text : string) : option json :=
  ts ← lex (S (String.length text)) text;
  '(value, rest) ← parse_value (S (length ts)) ts;
  match rest with
  | [] => Some value
  | _ => None
  end.

(** JSON text written with ['] where the text has a double quote. *)
Fixpoint dq (s : string) : string :=
  match s with
  | EmptyString => EmptyString
  | String c rest => String (if Ascii.eqb c "'" then DQUOTE else c) (dq rest)
  end.

End JsonText.

(** ** Response generator ([generateChatResponse]) *)

Module Gemini.
Import Types.

(** An exception raised inside the [try] block, with its diagnostic. *)
Inductive thrown : Type :=
| GenerateContentError (detail : string)
| SyntaxError (detail : string)
| ZodError.

(** What the [async] function settles to: the returned value, or the
    [Error] it throws, with its message. *)
Inductive outcome : Type :=
| Return (value : GeminiChatResponse)
| ThrowError (message : string).

Definition try_bind {A B : Type} (m : thrown + A) (k : A -> thrown + B)
  : thrown + B :=
  match m with
  | inl e => inl e
  | inr a => k a
  end.

(** Text handling of [src/lib/gemini.ts].  A string is the sequence of the
    UTF-8 bytes of the text. *)
Definition LF : ascii := ascii_of_nat 10.

Definition bytes (codes : list nat) : string :=
  String.string_of_list_ascii (map ascii_of_nat codes).

(** The WhiteSpace and LineTerminator code points of ECMAScript, which
    [trim] strips: TAB, LF, VT, FF, CR, SP, U+00A0, U+1680, U+2000 to
    U+200A, U+2028, U+2029, U+202F, U+205F, U+3000 and U+FEFF. *)
Definition white_space : list string :=
  (map (fun c => bytes [c]) [9; 10; 11; 12; 13; 32]
   ++ [bytes [194; 160]; bytes [225; 154; 128]]
   ++ map (fun c => bytes [226; 128; c]) (seq 128 11)
   ++ [bytes [226; 128; 168]; bytes [226; 128; 169]; bytes [226; 128; 175];
       bytes [226; 129; 159]; bytes [227; 128; 128]; bytes [239; 187; 191]])%nat.

Fixpoint skip (n : nat) (s : string) : string :=
  match n, s with
  | S k, String _ rest => skip k rest
  | _, _ => s
  end.

(** Drop from the head of [s] every leading occurrence of one of [ws]. *)
Fixpoint strip (ws : list string) (fuel : nat) (s : string) : string :=
  match fuel with
  | O => s
  | S fuel =>
      match List.find (fun w => String.prefix w s) ws with
      | Some w => strip ws fuel (skip (String.length w) s)
      | None => s
      end
  end.

Definition reverse_string (s : string) : string :=
  String.string_of_list_ascii (rev (String.list_ascii_of_string s)).

Definition trimStart (s : string) : string :=
  strip white_space (String.length s) s.

Definition trimEnd (s : string) : string :=
  reverse_string
    (strip (map reverse_string white_space) (String.length s) (reverse_string s)).

Definition trim (s : string) : string := trimEnd (trimStart s).

Definition startsWith (s searchString : string) : bool :=
  String.prefix searchString s.

(** [s.replace(re, '')] for a global pattern [re] that never matches the
    empty string: [match_at s] is the length of the match of [re] at the
    head of [s], if there is one. *)
Fixpoint remove_from (match_at : string -> option nat) (skip : nat) (s : string)
  : string :=
  match s with
  | EmptyString => EmptyString
  | String c rest =>
      match skip with
      | S k => remove_from match_at k rest
      | O =>
          match match_at s with
          | Some (S k) => remove_from match_at k rest
          | _ => String c (remove_from match_at 0 rest)
          end
      end
  end.

Definition remove_all (match_at : string -> option nat) (s : string) : string :=
  remove_from match_at 0 s.

(** A literal followed by an optional line feed: [/```json\n?/], [/```\n?/]. *)
Definition then_optional_LF (literal : string) (s : string) : option nat :=
  if String.prefix literal s then
    let n := String.length literal in
    match String.get n s with
    | Some c => if Ascii.eqb c LF then Some (S n) else Some n
    | None => Some n
    end
  else None.

(** An optional line feed followed by the fence: [/\n?```/]. *)
Definition optional_LF_then_fence (s : string) : option nat :=
  if String.prefix (String LF "```") s then Some 4%nat
  else if String.prefix "```" s then Some 3%nat
  else None.

(** "Extract JSON from response" *)
Definition extractJson (responseText : string) : string :=
  let jsonText := trim responseText in
  if startsWith jsonText "```json" then
    remove_all optional_LF_then_fence
      (remove_all (then_optional_LF "```json") jsonText)
  else if startsWith jsonText "```" then
    remove_all optional_LF_then_fence
      (remove_all (then_optional_LF "```") jsonText)
  else jsonText.

Definition generic_message : string := "Failed to generate chat response".

Section Generator.

(** The two things the function calls out to.  [chatModel userQuery
    candidates] is the text of the model's reply to the prompt built from
    [userQuery] and [JSON.stringify(candidates, null, 2)]
    ([generateContent] followed by [result.response.text()]), or what
    either of the two throws.  [JSON_parse] is the runtime's [JSON.parse]. *)
Variable chatModel : string -> list json -> thrown + string.
Variable JSON_parse : string -> thrown + json.

Definition validate (parsed : json) : thrown + GeminiChatResponse :=
  match GeminiChatResponseSchema (Some parsed) with
  | Some value => inr value
  | None => inl ZodError
  end.

(** The [try] block of [src/lib/gemini.ts]. *)
Definition attempt (userQuery : string) (candidates : list json)
  : thrown + GeminiChatResponse :=
  try_bind (chatModel userQuery candidates) (fun responseText =>
  let jsonText := extractJson responseText in
  try_bind (JSON_parse jsonText) (fun parsed =>
  validate parsed)).

(** [generateChatResponse] of [src/lib/gemini.ts]: whatever the [try]
    block throws is logged and replaced by one fixed [Error]. *)
Definition generateChatResponse (userQuery : string) (candidates : list json)
  : outcome :=
  match attempt userQuery candidates with
  | inr value => Return value
  | inl error => ThrowError generic_message
  end.

(** The [try] block of the later revision of the file, which relies on the
    response schema of the model and parses the reply as it is. *)
Definition attempt_direct (userQuery : string) (candidates : list json)
  : thrown + GeminiChatResponse :=
  try_bind (chatModel userQuery candidates) (fun responseText =>
  try_bind (JSON_parse responseText) (fun parsed =>
  validate parsed)).

Definition generateChatResponse_direct (userQuery : string)
    (candidates : list json) : outcome :=
  match attempt_direct userQuery candidates with
  | inr value => Return value
  | inl error => ThrowError generic_message
  end.

(** The three ways a [try] block can throw, and the one way it can
    return; [extract] is what the block does to the reply before parsing
    it. *)
Definition call_fails (userQuery : string) (candidates : list json) : Prop :=
  exists error, chatModel userQuery candidates = inl error.

Definition parse_fails (extract : string -> string)
    (userQuery : string) (candidates : list json) : Prop :=
  exists responseText error,
    chatModel userQuery candidates = inr responseText /\
    JSON_parse (extract responseText) = inl error.

Definition validation_fails (extract : string -> string)
    (userQuery : string) (candidates : list json) : Prop :=
  exists responseText parsed,
    chatModel userQuery candidates = inr responseText /\
    JSON_parse (extract responseText) = inr parsed /\
    GeminiChatResponseSchema (Some parsed) = None.

Definition validated (extract : string -> string)
    (userQuery : string) (candidates : list json)
    (value : GeminiChatResponse) : Prop :=
  exists responseText parsed,
    chatModel userQuery candidates = inr responseText /\
    JSON_parse (extract responseText) = inr parsed /\
    GeminiChatResponseSchema (Some parsed) = Some value /\
    response_of parsed value.

End Generator.

(** The identifiers present in a candidate list: the string [id] of each
    candidate object that has one. *)
Definition candidate_id (c : json) : option string :=
  match c with
  | JObject o => z_string (field "id" o)
  | _ => None
  end.

Definition candidate_ids (candidates : list json) : list string :=
  omap candidate_id candidates.

Definition asset_ids (value : GeminiChatResponse) : list string :=
  map id (assets value).

(** [JSON.parse] on the reader of [JsonText]. *)
Definition JSON_parse_text (text : string) : thrown + json :=
  match JsonText.parse text with
  | Some value => inr value
  | None => inl (SyntaxError "Unexpected token in JSON")
  end.

(** Sample data: one candidate, and a model that answers every prompt with
    a well-formed reply naming an asset that is not among the candidates. *)
Definition one_candidate : list json :=
  [ JObject [ ("id", JString "11111111-1111-4111-8111-111111111111");
              ("preview_path", JString "previews/a.jpg");
              ("similarity", JNumber "0.5") ] ].

Definition fabricated_reply : string :=
  JsonText.dq
    "{'assistant_message': 'Here is an image.', 'assets': [{'id': '99999999-9999-4999-8999-999999999999', 'preview_path': 'previews/x.jpg', 'label': 'X', 'reason': 'Y'}]}".

Definition fabricating_model (userQuery : string) (candidates : list json)
  : thrown + string :=
  inr fabricated_reply.


Definition fabricated_value : GeminiChatResponse :=
  {| assistant_message := "Here is an image.";
     assets :=
       [ {| id := "99999999-9999-4999-8999-999999999999";
            dam_id := Absent; file_name := Absent; url := Absent;
            preview_path := "previews/x.jpg"; label := "X"; reason := "Y" |} ] |}.

End Gemini.

(** ** Truthiness tests shared by the routes *)

Module Js.

(** [if (!authHeader)]: what [request.headers.get('authorization')]
    answers counts as a header unless it is [null] or the empty string. *)
Definition authHeader_of (header : option string) : option string :=
  match header with
  | Some authHeader => if String.eqb authHeader "" then None else Some authHeader
  | None => None
  end.

(** [error.message || 'Internal server error'] *)
Definition message_or_default (message : string) : string :=
  if String.eqb message "" then "Internal server error" else message.

End Js.

(** ** The chat request schema ([lib/types]) *)

Module ChatTypes.
Import Types.

(** [ChatMessageRoleSchema = z.enum(['user', 'assistant'])] *)
Inductive ChatMessageRole : Type :=
| RoleUser        (* 'user' *)
| RoleAssistant.  (* 'assistant' *)

#[global] Instance ChatMessageRole_eq_dec : EqDecision ChatMessageRole.
Proof. solve_decision. Defined.

Definition ChatMessageRoleSchema (input : option json) : option ChatMessageRole :=
  match input with
  | Some (JString s) =>
      if String.eqb s "user" then Some RoleUser
      else if String.eqb s "assistant" then Some RoleAssistant
      else None
  | _ => None
  end.

Record ChatRequestMessage := mkMessage {
  role : ChatMessageRole;
  content : string
}.

(** [ChatRequestMessageSchema] *)
Definition ChatRequestMessageSchema (input : option json)
  : option ChatRequestMessage :=
  match input with
  | Some (JObject o) =>
      role ← ChatMessageRoleSchema (field "role" o);
      content ← z_string (field "content" o);
      Some {| role := role; content := content |}
  | _ => None
  end.

Record ChatRequest := mkRequest { messages : list ChatRequestMessage }.

(** [ChatRequestSchema] *)
Definition ChatRequestSchema (input : option json) : option ChatRequest :=
  match input with
  | Some (JObject o) =>
      messages ← z_array ChatRequestMessageSchema (field "messages" o);
      Some {| messages := messages |}
  | _ => None
  end.

End ChatTypes.

(** ** The index client ([src/lib/pinecone.ts]) *)

Module Pinecone.
Import Types.

Section Client.
(** The type of an embedding vector, and the request handed to
    [index.query]. *)
Context {vector : Type}.

Record QueryRequest := mkQuery {
  query_vector : vector;
  topK : Z;
  includeMetadata : bool;
  filter : option json
}.

(** [getPineconeIndex().query(queryRequest)]: the [matches] of the
    response, [None] when the response has none, or the message of what
    the call throws. *)
Variable index_query : QueryRequest -> string + option (list Ranker.candidate).

(** [queryVectors(embedding, topK, filter)]; [filter] is [None] when the
    argument is omitted.  [inl] is the message of the [Error] thrown. *)
Definition queryVectors (embedding : vector) (topK : Z) (filter : option json)
  : string + list Ranker.candidate :=
  let queryRequest :=
    {| query_vector := embedding; topK := topK;
       includeMetadata := true; filter := filter |} in
  match index_query queryRequest with
  | inr matches => inr (default [] matches)
  | inl error => inl "Failed to query vectors"
  end.

End Client.

End Pinecone.

(** ** The chat endpoint ([app/api/chat/route.ts]) *)

Module ChatRoute.
Import Types ChatTypes Js.

(** The events written to the stream: [{ type: 'status', data: { status } }],
    [{ type: 'error', data: { error, reset? } }] and
    [{ type: 'result', data: { assistant_message, assets } }]. *)
Inductive event : Type :=
| StatusEvent (status : string)
| ErrorEvent (error : string) (reset : option string)
| ResultEvent (assistant_message : string) (assets : list BrandonAsset).

(** A row handed to [from('chat_messages').insert]. *)
Record ChatMessageRow := mkRow {
  row_user_id : string;
  row_role : ChatMessageRole;
  row_content : string;
  row_assets : option (list BrandonAsset)
}.

(** A candidate as handed to the response generator:
    [{ ...result.metadata, similarity, recencyScore, combinedScore }]. *)
Record scored := mkScored {
  metadata : Ranker.PineconeMetadata;
  similarity : Ranker.number;
  recencyScore : Ranker.number;
  combinedScore : Ranker.number
}.

(** The calls the request makes to its collaborators, in the order it
    makes them. *)
Inductive effect : Type :=
| InsertChatMessage (row : ChatMessageRow)
| GenerateEmbedding (text : string)
| CountApprovedAssets
| QueryVectors (topK : Z) (filter : option json)
| GenerateChatResponse (userQuery : string) (candidates : list scored).

(** What one request finds around it.  Each collaborator answers as a
    function of its arguments; [inl] carries the [message] of the error it
    throws. *)
Record Env {vector : Type} := mkEnv {
  authorization : option string;               (* request.headers.get('authorization') *)
  supabase : Auth.SupabaseClient;              (* createClient(..., authHeader) *)
  clock_limit : Z;                             (* Date.now() inside checkRateLimit *)
  toISOString : Z -> string;                   (* new Date(ms).toISOString() *)
  request_json : string + json;                (* await request.json() *)
  zod_message : json -> string;                (* message of the ZodError for a body *)
  insert_user_error : option string;           (* error of the first insert *)
  generateEmbedding : string -> string + vector;
  totalAssets : option Z;                      (* count of approved assets *)
  toLocaleString : Z -> string;
  index_query :
    Pinecone.QueryRequest (vector := vector)
    -> string + option (list Ranker.candidate);
  clock_rank : Z;                              (* Date.now() before re-ranking *)
  generateChatResponse : string -> list scored -> Gemini.outcome;
  insert_assistant_error : option string       (* error of the second insert *)
}.
Arguments Env : clear implicits.

(** The state a request runs in: the events enqueued on the stream and
    whether its controller is closed, the calls made so far, and the
    rate-limit store of the process. *)
Record world := mkWorld {
  events : list event;
  closed : bool;
  effects : list effect;
  store : gmap string RateLimit.window
}.

Definition initial (store : gmap string RateLimit.window) : world :=
  {| events := []; closed := false; effects := []; store := store |}.

(** A step: it returns a value or throws an error with a [message], and
    leaves a state behind either way. *)
Definition M (A : Type) : Type := world -> (string + A) * world.

Definition ret {A : Type} (a : A) : M A := fun w => (inr a, w).

Definition throw {A : Type} (message : string) : M A := fun w => (inl message, w).

Definition bind {A B : Type} (m : M A) (k : A -> M B) : M B :=
  fun w =>
    match m w with
    | (inr a, w') => k a w'
    | (inl message, w') => (inl message, w')
    end.

(** [try { body } catch (error) { handler(error.message) }] *)
Definition try_catch {A : Type} (body : M A) (handler : string -> M A) : M A :=
  fun w =>
    match body w with
    | (inr a, w') => (inr a, w')
    | (inl message, w') => handler message w'
    end.

Declare Scope route_scope.
Delimit Scope route_scope with route.
Notation "x <- m ;; k" := (bind m (fun x => k))
  (at level 100, m at next level, right associativity) : route_scope.
Notation "m ;;; k" := (bind m (fun _ => k))
  (at level 100, right associativity) : route_scope.
Local Open Scope route_scope.

Definition already_closed : string := "Invalid state: Controller is already closed".

(** [send(event)] of [createSSEResponse]: [controller.enqueue], which
    throws once the controller is closed. *)
Definition send (e : event) : M unit :=
  fun w =>
    if closed w then (inl already_closed, w)
    else (inr tt, {| events := events w ++ [e]; closed := false;
                     effects := effects w; store := store w |}).

(** [close()] of [createSSEResponse]: [controller.close], which throws
    when called a second time. *)
Definition close : M unit :=
  fun w =>
    if closed w then (inl already_closed, w)
    else (inr tt, {| events := events w; closed := true;
                     effects := effects w; store := store w |}).

Definition call (e : effect) : M unit :=
  fun w => (inr tt, {| events := events w; closed := closed w;
                       effects := effects w ++ [e]; store := store w |}).

(** A collaborator that may throw. *)
Definition await {A : Type} (answer : string + A) : M A :=
  match answer with
  | inr a => ret a
  | inl message => throw message
  end.

(** [requireAuth(supabase)] *)
Definition requireAuth (supabase : Auth.SupabaseClient) : M Auth.User :=
  match Auth.requireAuth supabase with
  | Auth.Return user => ret user
  | Auth.ThrowAuthError message => throw message
  end.

(** [checkRateLimit(identifier)], on the store of the process. *)
Definition checkRateLimit (now : Z) (identifier : string)
  : M RateLimit.RateLimitInfo :=
  fun w =>
    let '(info, store') :=
      RateLimit.checkRateLimit now identifier RateLimit.DEFAULT_RATE_LIMIT
        (store w) in
    (inr info, {| events := events w; closed := closed w;
                  effects := effects w; store := store' |}).

(** [new Date(value).toISOString()], which throws a [RangeError] when
    the value is not a time. *)
Definition Date_toISOString (toISOString : Z -> string) (value : RateLimit.num)
  : M string :=
  match value with
  | RateLimit.Num ms => ret (toISOString ms)
  | RateLimit.NaN => throw "Invalid time value"
  | RateLimit.Undefined => throw "Invalid time value"
  end.

(** [a || b] on numbers: [a] unless it is zero or [NaN]. *)
Definition or_else (a b : Ranker.number) : Ranker.number :=
  match a with
  | Ranker.Num q => if Qeq_bool q 0 then b else a
  | Ranker.NaN => b
  end.

(** The callback of [pineconeResults.map]. *)
Definition score_result (now : Z) (result : Ranker.candidate) : scored :=
  let purchaseDateMs :=
    or_else (Ranker.image_purchase_date (Ranker.metadata result))
            (Ranker.of_Z now) in
  let age := Ranker.sub (Ranker.of_Z now) purchaseDateMs in
  let recencyScore :=
    Ranker.Math_max (Ranker.of_Z 0)
      (Ranker.sub (Ranker.of_Z 1) (Ranker.div age Ranker.THREE_YEARS_MS)) in
  let combinedScore :=
    Ranker.add (Ranker.mul Ranker.ALPHA (Ranker.score result))
      (Ranker.mul (Ranker.sub (Ranker.of_Z 1) Ranker.ALPHA) recencyScore) in
  {| metadata := Ranker.metadata result;
     similarity := Ranker.score result;
     recencyScore := recencyScore;
     combinedScore := combinedScore |}.

(** [(a, b) => b.combinedScore - a.combinedScore] *)
Definition comparefn (a b : scored) : Ranker.number :=
  Ranker.sub (combinedScore b) (combinedScore a).

(** "Re-rank by recency", "Sort by combined score", "Take top 10". *)
Definition rerank (now : Z) (pineconeResults : list Ranker.candidate)
  : list scored :=
  let candidates := map (score_result now) pineconeResults in
  let candidates := Ranker.sort comparefn candidates in
  let topCandidates := take 10 candidates in
  topCandidates.

(** A natural number in decimal, as a template literal renders it. *)
Definition decimal (n : nat) : string :=
  DecimalString.NilZero.string_of_uint (Nat.to_uint n).

(** [`${totalAssets?.toLocaleString() || 0}`] *)
Definition total_label (toLocaleString : Z -> string) (totalAssets : option Z)
  : string :=
  match totalAssets with
  | Some n =>
      let s := toLocaleString n in
      if String.eqb s "" then "0" else s
  | None => "0"
  end.

Definition approved : option json :=
  Some (JObject [("status", JString "approved")]).

Section Request.
Context {vector : Type} (env : Env vector).

(** The [try] block of [processRequest]. *)
Definition steps : M unit :=
  match authHeader_of (authorization env) with
  | None =>
      send (ErrorEvent "Unauthorized" None) ;;;
      close
  | Some authHeader =>
      user <- requireAuth (supabase env) ;;
      rateLimitInfo <- checkRateLimit (clock_limit env) (Auth.id user) ;;
      if RateLimit.isRateLimited rateLimitInfo then
        reset <- Date_toISOString (toISOString env)
                   (RateLimit.reset rateLimitInfo) ;;
        send (ErrorEvent "Rate limit exceeded" (Some reset)) ;;;
        close
      else
        body <- await (request_json env) ;;
        validatedData <-
          match ChatRequestSchema (Some body) with
          | Some data => ret data
          | None => throw (zod_message env body)
          end ;;
        let userMessages :=
          filter (fun m => role m = RoleUser) (messages validatedData) in
        match last userMessages with
        | None =>
            send (ErrorEvent "No user message found" None) ;;;
            close
        | Some latestUserMessage =>
            let userQuery := content latestUserMessage in
            call (InsertChatMessage
                    {| row_user_id := Auth.id user; row_role := RoleUser;
                       row_content := userQuery; row_assets := None |}) ;;;
            let saveUserError := insert_user_error env in
            send (StatusEvent "Analyzing your query...") ;;;
            call (GenerateEmbedding userQuery) ;;;
            queryEmbedding <- await (generateEmbedding env userQuery) ;;
            call CountApprovedAssets ;;;
            send (StatusEvent
                    ("Searching through "
                     +:+ total_label (toLocaleString env) (totalAssets env)
                     +:+ " assets...")) ;;;
            call (QueryVectors 30 approved) ;;;
            pineconeResults <-
              await (Pinecone.queryVectors (index_query env)
                       queryEmbedding 30 approved) ;;
            send (StatusEvent
                    ("Found " +:+ decimal (length pineconeResults)
                     +:+ " potential matches")) ;;;
            send (StatusEvent "Ranking by relevance and recency...") ;;;
            let topCandidates := rerank (clock_rank env) pineconeResults in
            send (StatusEvent "Generating response...") ;;;
            call (GenerateChatResponse userQuery topCandidates) ;;;
            geminiResponse <-
              match generateChatResponse env userQuery topCandidates with
              | Gemini.Return value => ret value
              | Gemini.ThrowError message => throw message
              end ;;
            call (InsertChatMessage
                    {| row_user_id := Auth.id user; row_role := RoleAssistant;
                       row_content := assistant_message geminiResponse;
                       row_assets := Some (assets geminiResponse) |}) ;;;
            let saveAssistantError := insert_assistant_error env in
            send (ResultEvent (assistant_message geminiResponse)
                    (assets geminiResponse)) ;;;
            close
        end
  end.

(** [processRequest(request, send, close)] *)
Definition processRequest : M unit :=
  try_catch steps (fun message =>
    send (ErrorEvent (message_or_default message) None) ;;;
    close).

(** [POST(request)]: the stream is created open and empty, and
    [processRequest] runs with a [catch] of its own behind it. *)
Definition POST (store : gmap string RateLimit.window) : (string + unit) * world :=
  try_catch processRequest (fun message =>
    send (ErrorEvent (message_or_default message) None) ;;;
    close) (initial store).

End Request.

(** The five status labels of a request that finds [n] matches. *)
Definition status_labels (total : string) (n : nat) : list string :=
  [ "Analyzing your query...";
    "Searching through " +:+ total +:+ " assets...";
    "Found " +:+ decimal n +:+ " potential matches";
    "Ranking by relevance and recency...";
    "Generating response..." ].

Definition is_terminal (e : event) : bool :=
  match e with
  | StatusEvent _ => false
  | _ => true
  end.

(** The labels of the status events of a stream, in order. *)
Definition statuses_of (evs : list event) : list string :=
  omap (fun e => match e with StatusEvent s => Some s | _ => None end) evs.

(** A number that [||] keeps: neither zero nor [NaN]. *)
Definition truthy (a : Ranker.number) : bool :=
  match a with
  | Ranker.Num q => negb (Qeq_bool q 0)
  | Ranker.NaN => false
  end.

(** A candidate of the ranking snippet, laid out as the route hands it to
    the response generator. *)
Definition of_ranked (now : Z) (r : Ranker.ranked) : scored :=
  {| metadata := Ranker.metadata (Ranker.source r);
     similarity := Ranker.score (Ranker.source r);
     recencyScore := Ranker.recencyScore now (Ranker.source r);
     combinedScore := Ranker.combinedScore r |}.

(** Sample data: a signed-in user sends a conversation that ends with a
    user message; the embedder, the index and the response generator are
    given. *)
Definition sample_body : json :=
  JObject
    [ ("messages",
       JArray
         [ JObject [("role", JString "user"); ("content", JString "red sports car")];
           JObject [("role", JString "assistant"); ("content", JString "Here you go.")];
           JObject [("role", JString "user"); ("content", JString "latest SUV")] ]) ].

Definition sample_env
    (embed : string -> string + unit)
    (index : Pinecone.QueryRequest (vector := unit)
             -> string + option (list Ranker.candidate))
    (generate : string -> list scored -> Gemini.outcome) : Env unit :=
  {| authorization := Some "Bearer token";
     supabase := Auth.client_with None;
     clock_limit := 1735689540000;
     toISOString := fun _ => "2025-01-01T00:00:00.000Z";
     request_json := inr sample_body;
     zod_message := fun _ => "Invalid input";
     insert_user_error := None;
     generateEmbedding := embed;
     totalAssets := Some 1247;
     toLocaleString := fun _ => "1,247";
     index_query := index;
     clock_rank := Ranker.sample_now;
     generateChatResponse := generate;
     insert_assistant_error := None |}.

Definition embed_ok (text : string) : string + unit := inr tt.

Definition index_of (matches : option (list Ranker.candidate))
    (request : Pinecone.QueryRequest (vector := unit))
  : string + option (list Ranker.candidate) :=
  inr matches.

Definition index_down (request : Pinecone.QueryRequest (vector := unit))
  : string + option (list Ranker.candidate) :=
  inl "ECONNRESET".

Definition generate_ok (userQuery : string) (candidates : list scored)
  : Gemini.outcome :=
  Gemini.Return Gemini.fabricated_value.

Definition generate_down (userQuery : string) (candidates : list scored)
  : Gemini.outcome :=
  Gemini.ThrowError Gemini.generic_message.

Definition env_ok : Env unit :=
  sample_env embed_ok (index_of (Some Ranker.sample_candidates)) generate_ok.

Definition env_generator_down : Env unit :=
  sample_env embed_ok (index_of (Some Ranker.sample_candidates)) generate_down.

Definition env_index_down : Env unit :=
  sample_env embed_ok index_down generate_ok.

Definition env_no_matches : Env unit :=
  sample_env embed_ok (index_of None) generate_ok.

End ChatRoute.

(** ** Fenced replies *)

Module Markdown.

Definition backtick : ascii := "`"%char.

(** A text without a backtick. *)
Definition fence_free (body : string) : Prop :=
  ~ In backtick (String.list_ascii_of_string body).

(** A Markdown code block: the fence with its info string, the body on
    lines of its own, the closing fence. *)
Definition fenced (info body : string) : string :=
  ("```" ++ info ++ String Gemini.LF body ++ String Gemini.LF "```")%string.


End Markdown.


(** ** Image analysis ([src/lib/gemini.ts], [analyzeImage]) *)

Module Vision.
Import Types.

(** [GeminiVisionResponse = z.infer<typeof GeminiVisionResponseSchema>] *)
Record Setting := mkSetting {
  environment : string;
  time_of_day : string;
  weather : string
}.

Record Composition := mkComposition {
  orientation : string;
  shot_type : string;
  focus : string
}.

Record Usage := mkUsage {
  typical_channels : list string;
  tone : list string
}.

Record GeminiVisionResponse := mkVision {
  summary : string;
  subjects : list string;
  mood : list string;
  setting : Setting;
  composition : Composition;
  usage : Usage;
  keywords : list string
}.

Definition SettingSchema (input : option json) : option Setting :=
  match input with
  | Some (JObject o) =>
      environment ← z_string (field "environment" o);
      time_of_day ← z_string (field "time_of_day" o);
      weather ← z_string (field "weather" o);
      Some {| environment := environment; time_of_day := time_of_day;
              weather := weather |}
  | _ => None
  end.

Definition CompositionSchema (input : option json) : option Composition :=
  match input with
  | Some (JObject o) =>
      orientation ← z_string (field "orientation" o);
      shot_type ← z_string (field "shot_type" o);
      focus ← z_string (field "focus" o);
      Some {| orientation := orientation; shot_type := shot_type;
              focus := focus |}
  | _ => None
  end.

Definition UsageSchema (input : option json) : option Usage :=
  match input with
  | Some (JObject o) =>
      typical_channels ← z_array z_string (field "typical_channels" o);
      tone ← z_array z_string (field "tone" o);
      Some {| typical_channels := typical_channels; tone := tone |}
  | _ => None
  end.

(** [GeminiVisionResponseSchema.parse] *)
Definition GeminiVisionResponseSchema (input : option json)
  : option GeminiVisionResponse :=
  match input with
  | Some (JObject o) =>
      summary ← z_string (field "summary" o);
      subjects ← z_array z_string (field "subjects" o);
      mood ← z_array z_string (field "mood" o);
      setting ← SettingSchema (field "setting" o);
      composition ← CompositionSchema (field "composition" o);
      usage ← UsageSchema (field "usage" o);
      keywords ← z_array z_string (field "keywords" o);
      Some {| summary := summary; subjects := subjects; mood := mood;
              setting := setting; composition := composition; usage := usage;
              keywords := keywords |}
  | _ => None
  end.

(** The object a validated response is, as a JavaScript value. *)
Definition strings (l : list string) : json := JArray (map JString l).

Definition json_of_vision (g : GeminiVisionResponse) : json :=
  JObject
    [ ("summary", JString (summary g));
      ("subjects", strings (subjects g));
      ("mood", strings (mood g));
      ("setting",
        JObject [ ("environment", JString (environment (setting g)));
                  ("time_of_day", JString (time_of_day (setting g)));
                  ("weather", JString (weather (setting g))) ]);
      ("composition",
        JObject [ ("orientation", JString (orientation (composition g)));
                  ("shot_type", JString (shot_type (composition g)));
                  ("focus", JString (focus (composition g))) ]);
      ("usage",
        JObject [ ("typical_channels", strings (typical_channels (usage g)));
                  ("tone", strings (tone (usage g))) ]);
      ("keywords", strings (keywords g)) ].

(** What [analyzeImage] settles to. *)
Inductive outcome : Type :=
| Return (value : GeminiVisionResponse)
| ThrowError (message : string).

Definition generic_message : string := "Failed to analyze image".

Section Analyzer.

(** [visionModel imageBuffer mimeType] is the text of the model's reply to
    the image and the fixed prompt, or what the call throws; [JSON_parse]
    is the runtime's [JSON.parse]. *)
Variable visionModel : string -> string -> Gemini.thrown + string.
Variable JSON_parse : string -> Gemini.thrown + json.

Definition validate (parsed : json) : Gemini.thrown + GeminiVisionResponse :=
  match GeminiVisionResponseSchema (Some parsed) with
  | Some value => inr value
  | None => inl Gemini.ZodError
  end.

(** [analyzeImage] of [src/lib/gemini.ts]. *)
Definition analyzeImage (imageBuffer mimeType : string) : outcome :=
  match
    Gemini.try_bind (visionModel imageBuffer mimeType) (fun responseText =>
    let jsonText := Gemini.extractJson responseText in
    Gemini.try_bind (JSON_parse jsonText) (fun parsed =>
    validate parsed))
  with
  | inr value => Return value
  | inl error => ThrowError generic_message
  end.

(** [analyzeImage] of the later revision, which parses the reply as it
    is. *)
Definition analyzeImage_direct (imageBuffer mimeType : string) : outcome :=
  match
    Gemini.try_bind (visionModel imageBuffer mimeType) (fun responseText =>
    Gemini.try_bind (JSON_parse responseText) (fun parsed =>
    validate parsed))
  with
  | inr value => Return value
  | inl error => ThrowError generic_message
  end.

End Analyzer.

(** Sample data. *)
Definition sample_vision : GeminiVisionResponse :=
  {| summary := "A red sports car on a coastal road";
     subjects := ["sports car"; "coastal road"];
     mood := ["dynamic"];
     setting := {| environment := "outdoor"; time_of_day := "golden_hour";
                   weather := "clear" |};
     composition := {| orientation := "landscape"; shot_type := "wide";
                       focus := "product-centered" |};
     usage := {| typical_channels := ["website_hero"; "social_media"];
                 tone := ["premium"] |};
     keywords := ["car"; "coast"] |}.

End Vision.

(** ** Preview images ([lib/image-processing]) *)

Module ImageProcessing.

Inductive Format : Type := jpeg | png | webp.

Record ImageProcessingOptions := mkOptions {
  maxWidth : option Z;
  maxHeight : option Z;
  quality : option Z;
  format : option Format
}.

Section Sharp.

(** [sharp(imageBuffer).resize(maxWidth, maxHeight, { withoutEnlargement:
    true, fit: 'inside' })], then the encoder of the format at the given
    quality, then [toBuffer()]: the bytes, or the message of what was
    thrown on the way. *)
Variable sharp : string -> Z -> option Z -> Format -> Z -> string + string.

Definition generatePreview (imageBuffer : string)
    (options : ImageProcessingOptions) : string + string :=
  let maxWidth := default 800 (maxWidth options) in
  let maxHeight := maxHeight options in
  let quality := default 80 (quality options) in
  let format := default jpeg (format options) in
  match sharp imageBuffer maxWidth maxHeight format quality with
  | inr buffer => inr buffer
  | inl error => inl "Failed to generate preview image"
  end.

End Sharp.

End ImageProcessing.

(** ** The description route ([app/api/admin/generate-description/route.ts]) *)

Module DescribeRoute.
Import Types Js.

(** [GeneratedAssetData = z.infer<typeof GeneratedAssetDataSchema>] *)
Record GeneratedAssetData := mkGenerated {
  storage_path : string;
  preview_path : string;
  preview_url : string;
  llm_description : string;
  llm_metadata : Vision.GeminiVisionResponse;
  tags : list string;
  mime_type : string
}.

(** [GeneratedAssetDataSchema.parse] *)
Definition GeneratedAssetDataSchema (input : option json)
  : option GeneratedAssetData :=
  match input with
  | Some (JObject o) =>
      storage_path ← z_string (field "storage_path" o);
      preview_path ← z_string (field "preview_path" o);
      preview_url ← z_string (field "preview_url" o);
      llm_description ← z_string (field "llm_description" o);
      llm_metadata ← Vision.GeminiVisionResponseSchema (field "llm_metadata" o);
      tags ← z_array z_string (field "tags" o);
      mime_type ← z_string (field "mime_type" o);
      Some {| storage_path := storage_path; preview_path := preview_path;
              preview_url := preview_url; llm_description := llm_description;
              llm_metadata := llm_metadata; tags := tags;
              mime_type := mime_type |}
  | _ => None
  end.

(** The body and status of a [NextResponse.json]. *)
Inductive body : Type :=
| ErrorBody (error : string)
| Generated (validated : GeneratedAssetData).

Record response := mkResponse { status : Z; content : body }.

(** A [File] of the form data. *)
Record File := mkFile {
  name : string;
  type : string;
  arrayBuffer : string
}.

(** The calls to the storage buckets, in the order they are made. *)
Inductive effect : Type :=
| Upload (bucket path contentType : string) (error : option string)
| Remove (bucket : string) (paths : list string) (error : option string).

Record Env := mkEnv {
  authorization : option string;           (* request.headers.get('authorization') *)
  supabase : Auth.SupabaseClient;          (* createClient(..., authHeader) *)
  formData_image : string + option File;   (* (await request.formData()).get('image') *)
  uuid_full : string;                      (* the first uuidv4() *)
  uuid_preview : string;                   (* the second uuidv4() *)
  upload_full_error : option string;
  sharp : string -> Z -> option Z -> ImageProcessing.Format -> Z -> string + string;
  upload_preview_error : option string;
  remove_full_error : option string;       (* of the removal after a failed preview upload *)
  visionModel : string -> string -> Gemini.thrown + string;
  JSON_parse : string -> Gemini.thrown + json;
  getPublicUrl : string -> string;         (* of the bucket assets-preview *)
  zod_message : json -> string             (* message of the ZodError for a value *)
}.

(** [s.split(sep)] for a separator of one character. *)
Fixpoint split (sep : ascii) (s : string) : list string :=
  match s with
  | EmptyString => [EmptyString]
  | String c rest =>
      if Ascii.eqb c sep then EmptyString :: split sep rest
      else match split sep rest with
           | segment :: segments => String c segment :: segments
           | [] => [String c EmptyString]
           end
  end.

(** [imageFile.name.split('.').pop() || 'jpg'] *)
Definition fileExt (name : string) : string :=
  match last (split "." name) with
  | Some ext => if String.eqb ext "" then "jpg" else ext
  | None => "jpg"
  end.

(** The text holds a dot. *)
Definition dotted (s : string) : Prop := In "."%char (String.list_ascii_of_string s).

Definition validTypes : list string := ["image/jpeg"; "image/png"; "image/webp"].

(** [validTypes.includes(type)] *)
Definition includes (l : list string) (x : string) : bool :=
  existsb (String.eqb x) l.

(** [l.join(', ')] *)
Definition join (l : list string) : string := String.concat ", " l.

(** "Build LLM description" *)
Definition llmDescription (g : Vision.GeminiVisionResponse) : string :=
  (Vision.summary g ++ ". This image features " ++ join (Vision.subjects g)
   ++ " with a " ++ join (Vision.mood g) ++ " mood. The setting is "
   ++ Vision.environment (Vision.setting g) ++ " during "
   ++ Vision.time_of_day (Vision.setting g) ++ ". Composition: "
   ++ Vision.orientation (Vision.composition g) ++ " orientation, "
   ++ Vision.shot_type (Vision.composition g) ++ " shot. Suitable for "
   ++ join (Vision.typical_channels (Vision.usage g)) ++ ".")%string.

(** "Build response": the object literal handed to the schema. *)
Definition build_response (fileName previewFileName previewUrl : string)
    (geminiResponse : Vision.GeminiVisionResponse) (mime_type : string) : json :=
  let tags :=
    Vision.subjects geminiResponse ++ Vision.mood geminiResponse
    ++ Vision.keywords geminiResponse in
  JObject
    [ ("storage_path", JString fileName);
      ("preview_path", JString previewFileName);
      ("preview_url", JString previewUrl);
      ("llm_description", JString (llmDescription geminiResponse));
      ("llm_metadata", Vision.json_of_vision geminiResponse);
      ("tags", Vision.strings tags);
      ("mime_type", JString mime_type) ].

Definition json_error (status : Z) (error : string) : response :=
  {| status := status; content := ErrorBody error |}.

(** The [catch] block, on the message of what was thrown. *)
Definition handler (message : string) : response :=
  if String.eqb message "Admin access required"
  then json_error 403 "Admin access required"
  else json_error 500 (message_or_default message).

(** [POST]: the response, and the calls made to the storage buckets. *)
Definition POST (env : Env) : response * list effect :=
  match authHeader_of (authorization env) with
  | None => (json_error 401 "Unauthorized", [])
  | Some authHeader =>
  match Auth.requireAdmin (supabase env) with
  | Auth.ThrowAuthError message => (handler message, [])
  | Auth.Return _ =>
  match formData_image env with
  | inl message => (handler message, [])
  | inr None => (json_error 400 "No image file provided", [])
  | inr (Some imageFile) =>
  if negb (includes validTypes (type imageFile))
  then (json_error 400
          "Invalid file type. Only JPEG, PNG, and WebP are supported.", [])
  else
  let imageBuffer := arrayBuffer imageFile in
  let fileName := (uuid_full env ++ "." ++ fileExt (name imageFile))%string in
  let upload_full :=
    Upload "assets-full" fileName (type imageFile) (upload_full_error env) in
  match upload_full_error env with
  | Some uploadError => (json_error 500 "Failed to upload image", [upload_full])
  | None =>
  match
    ImageProcessing.generatePreview (sharp env) imageBuffer
      {| ImageProcessing.maxWidth := Some 800;
         ImageProcessing.maxHeight := None;
         ImageProcessing.quality := Some 80;
         ImageProcessing.format := Some ImageProcessing.jpeg |}
  with
  | inl message => (handler message, [upload_full])
  | inr previewBuffer =>
  let previewFileName := (uuid_preview env ++ "_preview.jpg")%string in
  let upload_preview :=
    Upload "assets-preview" previewFileName "image/jpeg"
      (upload_preview_error env) in
  match upload_preview_error env with
  | Some previewError =>
      (json_error 500 "Failed to upload preview image",
       [upload_full; upload_preview;
        Remove "assets-full" [fileName] (remove_full_error env)])
  | None =>
  match
    Vision.analyzeImage (visionModel env) (JSON_parse env) imageBuffer
      (type imageFile)
  with
  | Vision.ThrowError message => (handler message, [upload_full; upload_preview])
  | Vision.Return geminiResponse =>
  let previewUrl := getPublicUrl env previewFileName in
  let response :=
    build_response fileName previewFileName previewUrl geminiResponse
      (type imageFile) in
  match GeneratedAssetDataSchema (Some response) with
  | None => (handler (zod_message env response), [upload_full; upload_preview])
  | Some validated =>
      ({| status := 200; content := Generated validated |},
       [upload_full; upload_preview])
  end end end end end end end end.

(** The objects a sequence of calls leaves in a bucket: those uploaded
    without error and not removed afterwards.  A call answers with its
    error, if any; the route reads the answer of an upload and does not
    read the answer of a removal. *)
Definition apply_effect (bucket : string) (stored : list string) (e : effect)
  : list string :=
  match e with
  | Upload b path _ None =>
      if String.eqb b bucket then stored ++ [path] else stored
  | Upload _ _ _ (Some _) => stored
  | Remove b paths None =>
      if String.eqb b bucket
      then filter (fun p => p ∉ paths) stored
      else stored
  | Remove _ _ (Some _) => stored
  end.

Definition left_in (bucket : string) (effects : list effect) : list string :=
  fold_left (apply_effect bucket) effects [].

(** Sample data: an administrator uploads [car.final.png]; the model
    answers with the text [reply]. *)
Definition sample_file : File :=
  {| name := "car.final.png"; type := "image/png"; arrayBuffer := "PNG" |}.

Definition sample_env (reply : Gemini.thrown + string) : Env :=
  {| authorization := Some "Bearer t";
     supabase := Auth.client_with (Some "admin");
     formData_image := inr (Some sample_file);
     uuid_full := "11111111-1111-4111-8111-111111111111";
     uuid_preview := "22222222-2222-4222-8222-222222222222";
     upload_full_error := None;
     sharp := fun buffer _ _ _ _ => inr buffer;
     upload_preview_error := None;
     remove_full_error := None;
     visionModel := fun _ _ => reply;
     JSON_parse := Gemini.JSON_parse_text;
     getPublicUrl := fun path => ("https://cdn.example/" ++ path)%string;
     zod_message := fun _ => "Invalid input" |}.

(** A reply of the vision model, in a code block, and the answer of the
    route to the sample upload when the model sends it. *)
Definition vision_reply : string :=
  Markdown.fenced "json"
    (JsonText.dq
       "{'summary': 'A red sports car on a coastal road', 'subjects': ['sports car', 'coastal road'], 'mood': ['dynamic'], 'setting': {'environment': 'outdoor', 'time_of_day': 'golden_hour', 'weather': 'clear'}, 'composition': {'orientation': 'landscape', 'shot_type': 'wide', 'focus': 'product-centered'}, 'usage': {'typical_channels': ['website_hero', 'social_media'], 'tone': ['premium']}, 'keywords': ['car', 'coast']}").

Definition env_described : Env := sample_env (inr vision_reply).

Definition described : GeneratedAssetData :=
  {| storage_path := "11111111-1111-4111-8111-111111111111.png";
     preview_path := "22222222-2222-4222-8222-222222222222_preview.jpg";
     preview_url :=
       "https://cdn.example/22222222-2222-4222-8222-222222222222_preview.jpg";
     llm_description := llmDescription Vision.sample_vision;
     llm_metadata := Vision.sample_vision;
     tags := ["sports car"; "coastal road"; "dynamic"; "car"; "coast"];
     mime_type := "image/png" |}.

End DescribeRoute.

(** ** The history route ([app/api/history/route.ts]) *)

Module HistoryRoute.
Import Types Js.

(** The answer of a query on [chat_messages]. *)
Record QueryResponse := mkQueryResponse {
  data : option (list json);
  error : option string
}.

Record Env := mkEnv {
  authorization : option string;        (* request.headers.get('authorization') *)
  supabase : Auth.SupabaseClient;       (* createClient(..., authHeader) *)
  (* from('chat_messages').select('*').eq('user_id', id).order('created_at', ...) *)
  select_messages : string -> QueryResponse;
  (* from('chat_messages').delete().eq('user_id', id) *)
  delete_messages : string -> option string
}.

Inductive body : Type :=
| ErrorBody (error : string)
| Messages (messages : list json)
| Cleared (message : string).

Record response := mkResponse { status : Z; content : body }.

(** The queries made, each with the [user_id] it is restricted to. *)
Inductive effect : Type :=
| Select (user_id : string)
| Delete (user_id : string).

Definition json_error (status : Z) (error : string) : response :=
  {| status := status; content := ErrorBody error |}.

(** The [catch] block of both handlers, on the message of what was
    thrown. *)
Definition handler (message : string) : response :=
  json_error (if String.eqb message "Not authenticated" then 401 else 500)
             (message_or_default message).

Definition GET (env : Env) : response * list effect :=
  match authHeader_of (authorization env) with
  | None => (json_error 401 "Unauthorized", [])
  | Some authHeader =>
  match Auth.requireAuth (supabase env) with
  | Auth.ThrowAuthError message => (handler message, [])
  | Auth.Return user =>
  let r := select_messages env (Auth.id user) in
  match error r with
  | Some _ => (json_error 500 "Failed to fetch chat history", [Select (Auth.id user)])
  | None =>
      ({| status := 200; content := Messages (default [] (data r)) |},
       [Select (Auth.id user)])
  end end end.

Definition DELETE (env : Env) : response * list effect :=
  match authHeader_of (authorization env) with
  | None => (json_error 401 "Unauthorized", [])
  | Some authHeader =>
  match Auth.requireAuth (supabase env) with
  | Auth.ThrowAuthError message => (handler message, [])
  | Auth.Return user =>
  match delete_messages env (Auth.id user) with
  | Some _ => (json_error 500 "Failed to delete chat history", [Delete (Auth.id user)])
  | None =>
      ({| status := 200; content := Cleared "Chat history cleared" |},
       [Delete (Auth.id user)])
  end end end.

(** The user a query is restricted to. *)
Definition effect_user (e : effect) : string :=
  match e with
  | Select user_id => user_id
  | Delete user_id => user_id
  end.

(** A handler is guarded: it answers 401 exactly to a request without a
    header or without a signed-in user, and restricts every query to the
    signed-in user. *)
Definition guarded (route : Env -> response * list effect) (env : Env) : Prop :=
  (status (route env).1 = 401 <->
   authHeader_of (authorization env) = None \/
   exists message, Auth.requireAuth (supabase env) = Auth.ThrowAuthError message) /\
  (forall e, e ∈ (route env).2 ->
     exists user,
       Auth.requireAuth (supabase env) = Auth.Return user /\
       effect_user e = Auth.id user).

End HistoryRoute.

(** ** Sample requests across the routes *)

Module Routes.

Definition signed_out : Auth.SupabaseClient :=
  {| Auth.auth_getUser := {| Auth.user := None; Auth.auth_error := Some "invalid JWT" |};
     Auth.user_roles_single := fun _ =>
       {| Auth.data := None; Auth.error := Some "PGRST301" |} |}.

Definition chat_signed_out : ChatRoute.Env unit :=
  {| ChatRoute.authorization := Some "Bearer expired";
     ChatRoute.supabase := signed_out;
     ChatRoute.clock_limit := 1735689540000;
     ChatRoute.toISOString := fun _ => "2025-01-01T00:00:00.000Z";
     ChatRoute.request_json := inr ChatRoute.sample_body;
     ChatRoute.zod_message := fun _ => "Invalid input";
     ChatRoute.insert_user_error := None;
     ChatRoute.generateEmbedding := ChatRoute.embed_ok;
     ChatRoute.totalAssets := Some 1247;
     ChatRoute.toLocaleString := fun _ => "1,247";
     ChatRoute.index_query := ChatRoute.index_of None;
     ChatRoute.clock_rank := Ranker.sample_now;
     ChatRoute.generateChatResponse := ChatRoute.generate_ok;
     ChatRoute.insert_assistant_error := None |}.

Definition describe_signed_out : DescribeRoute.Env :=
  {| DescribeRoute.authorization := Some "Bearer expired";
     DescribeRoute.supabase := signed_out;
     DescribeRoute.formData_image := inr (Some DescribeRoute.sample_file);
     DescribeRoute.uuid_full := "11111111-1111-4111-8111-111111111111";
     DescribeRoute.uuid_preview := "22222222-2222-4222-8222-222222222222";
     DescribeRoute.upload_full_error := None;
     DescribeRoute.sharp := fun buffer _ _ _ _ => inr buffer;
     DescribeRoute.upload_preview_error := None;
     DescribeRoute.remove_full_error := None;
     DescribeRoute.visionModel := fun _ _ => inr "{}";
     DescribeRoute.JSON_parse := Gemini.JSON_parse_text;
     DescribeRoute.getPublicUrl := fun path => path;
     DescribeRoute.zod_message := fun _ => "Invalid input" |}.

Definition history_signed_out : HistoryRoute.Env :=
  {| HistoryRoute.authorization := Some "Bearer expired";
     HistoryRoute.supabase := signed_out;
     HistoryRoute.select_messages := fun _ =>
       {| HistoryRoute.data := None; HistoryRoute.error := None |};
     HistoryRoute.delete_messages := fun _ => None |}.

End Routes.

(** * Properties *)

(** ** Rate limiter *)

Module RateLimitFacts.
Import RateLimit.

Section Step.
Context (now : Z) (key : string) (config : RateLimitConfig).
Implicit Types store : gmap string window.

Lemma initialize_get store : get (initialize now config key store) key <> Missing.
Proof.
  unfold initialize, get. destruct (store !! key) eqn:E.
  - rewrite E. discriminate.
  - destruct (inherited key) eqn:Hi.
    + rewrite E. discriminate.
    + rewrite lookup_insert_eq. discriminate.
Qed.

Ltac look E Hi :=
  repeat first
    [ rewrite E | rewrite Hi
    | rewrite lookup_delete_eq | rewrite lookup_insert_eq
    | rewrite lookup_alter_eq
    | progress cbn [fmap option_fmap option_map] ].

Ltac same_map key :=
  let k := fresh "k" in
  let Hk := fresh "Hk" in
  f_equal; apply map_eq; intros k; destruct (decide (k = key)) as [->|Hk];
  [ rewrite ?lookup_alter_eq, ?lookup_delete_eq, ?lookup_insert_eq,
      ?lookup_partial_alter_eq
  | rewrite ?lookup_alter_ne, ?lookup_delete_ne, ?lookup_insert_ne,
      ?lookup_partial_alter_ne by done;
    try (rewrite lookup_delete_ne by done) ].

(** One call, in closed form, for any key: the own entry of [key] becomes
    [entry_update now config key (store !! key)], every other key is
    untouched, and the returned record is read off the new window, or off
    the inherited member when there is none. *)
Lemma checkRateLimit_closed store :
  checkRateLimit now key config store =
    let entry := entry_update now config key (store !! key) in
    (match entry with
     | Some w => info_of config w
     | None => info_inherited config
     end,
     partial_alter (fun _ => entry) key store).
Proof.
  unfold checkRateLimit, cleanup, initialize, increment, get, entry_update,
    info_of, info_inherited.
  destruct (store !! key) as [w|] eqn:E; [destruct (resetTime w <? now) eqn:Hlt|];
    destruct (inherited key) eqn:Hi; look E Hi; cbn zeta.
  all: same_map key.
  all: look E Hi; reflexivity.
Qed.

Lemma checkRateLimit_other store k :
  k <> key -> (checkRateLimit now key config store).2 !! k = store !! k.
Proof.
  intros Hk. rewrite checkRateLimit_closed. cbn.
  now rewrite lookup_partial_alter_ne.
Qed.

Lemma checkRateLimit_entry store :
  (checkRateLimit now key config store).2 !! key
  = entry_update now config key (store !! key).
Proof. rewrite checkRateLimit_closed. cbn. now rewrite lookup_partial_alter_eq. Qed.

(** A window that has not expired is kept and counts the call, whatever
    the key. *)
Lemma checkRateLimit_kept store w :
  store !! key = Some w -> now <= resetTime w ->
  checkRateLimit now key config store =
    let w' := {| count := count w + 1; resetTime := resetTime w |} in
    (info_of config w', <[key := w']> store).
Proof.
  intros E Hle. rewrite checkRateLimit_closed, E. cbn.
  destruct (Z.ltb_spec (resetTime w) now); [lia|]. reflexivity.
Qed.

(** A key that names an inherited member and has no window of its own:
    the call ends on the member and leaves the store as it is. *)
Lemma checkRateLimit_inherited store :
  inherited key = true -> store !! key = None ->
  checkRateLimit now key config store = (info_inherited config, store).
Proof.
  intros Hi E. rewrite checkRateLimit_closed, E. unfold entry_update.
  rewrite Hi. cbn zeta.
  same_map key; try reflexivity; now rewrite ?E.
Qed.

(** Every other key: the window of [key] becomes
    [entry_after now config (store !! key)]. *)
Section OwnName.
Hypothesis Hkey : inherited key = false.

Lemma entry_update_own entry :
  entry_update now config key entry = Some (entry_after now config entry).
Proof.
  unfold entry_update, entry_after. rewrite Hkey.
  destruct entry as [w|]; [|reflexivity]. now destruct (resetTime w <? now).
Qed.

Lemma checkRateLimit_unfold store :
  checkRateLimit now key config store =
    let w := entry_after now config (store !! key) in
    (info_of config w, <[key := w]> store).
Proof.
  rewrite checkRateLimit_closed. cbn. now rewrite entry_update_own.
Qed.

Lemma checkRateLimit_info store :
  (checkRateLimit now key config store).1 =
    info_of config (entry_after now config (store !! key)).
Proof. now rewrite checkRateLimit_unfold. Qed.

Lemma checkRateLimit_store store :
  (checkRateLimit now key config store).2 =
    <[key := entry_after now config (store !! key)]> store.
Proof. now rewrite checkRateLimit_unfold. Qed.

Lemma checkRateLimit_lookup store :
  (checkRateLimit now key config store).2 !! key =
    Some (entry_after now config (store !! key)).
Proof. now rewrite checkRateLimit_store, lookup_insert_eq. Qed.

End OwnName.

End Step.

Lemma entry_after_counted now config o :
  (forall w, o = Some w -> 1 <= count w) -> 1 <= count (entry_after now config o).
Proof.
  intros H. unfold entry_after. destruct o as [w|]; cbn; [|lia].
  specialize (H w eq_refl). destruct (resetTime w <? now); cbn; lia.
Qed.

(** What the process can reach: no inherited name ever gets a window of
    its own, and every window has counted at least one call. *)
Lemma reachable_own store :
  reachable store ->
  forall k w, store !! k = Some w -> inherited k = false /\ 1 <= count w.
Proof.
  induction 1 as [|now key config store _ IH]; intros k w.
  - now rewrite lookup_empty.
  - destruct (decide (k = key)) as [->|Hk].
    + rewrite checkRateLimit_entry. unfold entry_update.
      destruct (store !! key) as [w0|] eqn:E.
      * destruct (IH key w0 E) as [Hi Hc]. rewrite Hi.
        destruct (resetTime w0 <? now); intros [= <-]; cbn; split; auto; lia.
      * destruct (inherited key) eqn:Hi; [discriminate|].
        intros [= <-]. cbn. split; auto; lia.
    + rewrite checkRateLimit_other by done. apply IH.
Qed.

Lemma reachable_counted store : reachable store -> counted store.
Proof. intros Hr k w E. now apply (reachable_own store Hr k w). Qed.

(** C9, as stated, fails: under a configuration that allows no request
    over a window of negative length, the one call made at time 100 comes
    back with [remaining = 0], above [limit - 1 = -1], and with
    [reset = 95], before the call. *)
Lemma C9_counterexample :
  let info :=
    (checkRateLimit 100 "u" {| windowMs := -5; maxRequests := 0 |} ∅).1 in
  limit info = 0 /\ remaining info = 0 /\ reset info = 95 /\
  ~ (exists remaining reset,
       RateLimit.remaining info = Num remaining /\
       RateLimit.reset info = Num reset /\
       0 <= remaining <= limit info - 1 /\ 100 <= reset).
Proof.
  cbn zeta. rewrite checkRateLimit_info by reflexivity. cbn.
  repeat split. intros (r & t & [= <-] & [= <-] & H & _). lia.
Qed.

(** C9, amended: in a store the process can reach, under a configuration
    that allows at least one request over a window of non-negative length,
    and for an identifier that is not the name of a member the store
    object inherits, the record returned by [checkRateLimit] has
    [limit = config.maxRequests], a [remaining] and a [reset] that are
    numbers, [0 <= remaining <= limit - 1] (the count is incremented before
    [remaining] is computed, so [remaining] is never [limit]) and
    [reset >= now]. *)
Theorem C9_checkRateLimit_info_bounds now key config store :
  reachable store ->
  inherited key = false ->
  1 <= maxRequests config ->
  0 <= windowMs config ->
  let info := (checkRateLimit now key config store).1 in
  limit info = maxRequests config /\
  exists remaining reset,
    RateLimit.remaining info = Num remaining /\
    RateLimit.reset info = Num reset /\
    0 <= remaining <= limit info - 1 /\
    now <= reset.
Proof.
  intros Hr Hkey Hmax Hwin. rewrite checkRateLimit_info by assumption. cbn.
  pose proof (reachable_counted _ Hr key) as Hc.
  assert (1 <= count (entry_after now config (store !! key))) as H1.
  { apply entry_after_counted. intros w E. now apply Hc. }
  split; [reflexivity|]. eexists _, _. split; [reflexivity|].
  split; [reflexivity|]. split; [lia|].
  unfold entry_after. destruct (store !! key) as [w|]; cbn; [|lia].
  destruct (resetTime w <? now) eqn:E; cbn; lia.
Qed.

(** The first call of an identity, under the default configuration. *)
Lemma C9_witness :
  let info := (checkRateLimit 5 "alice" DEFAULT_RATE_LIMIT ∅).1 in
  limit info = 20 /\
  exists remaining reset,
    RateLimit.remaining info = Num remaining /\
    RateLimit.reset info = Num reset /\
    0 <= remaining <= limit info - 1 /\
    5 <= reset.
Proof.
  apply (C9_checkRateLimit_info_bounds 5 "alice" DEFAULT_RATE_LIMIT ∅).
  - constructor.
  - reflexivity.
  - cbn; lia.
  - cbn; lia.
Defined.

(** *** The window boundary *)

(** C7, as stated, at the boundary: the first call at time 0 opens a window
    ending at 60000; a second call at exactly 60000 finds
    [now >= resetTime], yet the window is kept and its count goes to 2. *)
Lemma C7_counterexample :
  let store := (checkRateLimit 0 "u" DEFAULT_RATE_LIMIT ∅).2 in
  reachable store /\
  store !! "u" = Some {| count := 1; resetTime := 60000 |} /\
  60000 >= resetTime {| count := 1; resetTime := 60000 |} /\
  ~ resets 60000 "u" DEFAULT_RATE_LIMIT store /\
  (checkRateLimit 60000 "u" DEFAULT_RATE_LIMIT store).2 !! "u"
    = Some {| count := 2; resetTime := 60000 |}.
Proof.
  cbn zeta. split; [apply reachable_call, reachable_init|].
  split; [now rewrite checkRateLimit_lookup|].
  split; [cbn; lia|].
  unfold resets. rewrite !checkRateLimit_lookup, lookup_empty by reflexivity. cbn.
  split; [discriminate|reflexivity].
Qed.

(** C7, amended: for a window [w] held for [key] in a reachable store, a
    call at [now] recreates the window exactly when [resetTime w < now]
    (strictly); the recreated window has count 1 and ends at
    [now + windowMs].  Otherwise, up to and including [now = resetTime w],
    the window keeps its [resetTime] and its count grows by one: within a
    window the count never decreases. *)
Theorem C7_window_reset_iff_strictly_expired now key config store w :
  reachable store ->
  store !! key = Some w ->
  exists w',
    (checkRateLimit now key config store).2 !! key = Some w' /\
    (resets now key config store <-> resetTime w < now) /\
    (resetTime w < now ->
       w' = {| count := 1; resetTime := now + windowMs config |}) /\
    (now <= resetTime w ->
       resetTime w' = resetTime w /\ count w' = count w + 1 /\
       count w <= count w').
Proof.
  intros Hr E. destruct (reachable_own _ Hr key w E) as [Hkey Hc].
  exists (entry_after now config (Some w)).
  unfold resets. rewrite checkRateLimit_lookup, E by assumption.
  split; [reflexivity|].
  cbn. destruct (Z.ltb_spec (resetTime w) now) as [Hlt|Hge].
  - split; [tauto|]. split; [reflexivity|lia].
  - split.
    + split; [|lia]. intros [= Hcount _]. lia.
    + split; [lia|]. intros _. cbn. lia.
Qed.

(** A window opened at 0 and found again at 60001 is recreated. *)
Lemma C7_witness :
  exists w',
    (checkRateLimit 60001 "u" DEFAULT_RATE_LIMIT
       (checkRateLimit 0 "u" DEFAULT_RATE_LIMIT ∅).2).2 !! "u" = Some w' /\
    (resets 60001 "u" DEFAULT_RATE_LIMIT
       (checkRateLimit 0 "u" DEFAULT_RATE_LIMIT ∅).2 <-> 60000 < 60001) /\
    (60000 < 60001 -> w' = {| count := 1; resetTime := 60001 + 60000 |}) /\
    (60001 <= 60000 ->
       resetTime w' = 60000 /\ count w' = 1 + 1 /\ 1 <= count w').
Proof.
  apply (C7_window_reset_iff_strictly_expired 60001 "u" DEFAULT_RATE_LIMIT
           (checkRateLimit 0 "u" DEFAULT_RATE_LIMIT ∅).2
           {| count := 1; resetTime := 60000 |}).
  - apply reachable_call, reachable_init.
  - vm_compute. reflexivity.
Defined.

(** *** Runs of calls inside one window *)

Section Runs.
Context (key : string) (config : RateLimitConfig).

Lemma calls_step now times store :
  calls (now :: times) key config store =
    let r1 := checkRateLimit now key config store in
    let r := calls times key config r1.2 in
    (r1.1 :: r.1, r.2).
Proof.
  cbn [calls]. destruct (checkRateLimit now key config store) as [info store1].
  cbn. now destruct (calls times key config store1).
Qed.

(** While no call comes after [resetTime w], the [i]-th call (from 0) into
    the window [w] is the one that brings its count to [count w + i + 1]. *)
Lemma calls_in_window times : forall store w (i : nat),
  store !! key = Some w ->
  Forall (fun t => t <= resetTime w) times ->
  (i < length times)%nat ->
  (calls times key config store).1 !! i =
    Some (info_of config
            {| count := count w + Z.of_nat i + 1; resetTime := resetTime w |}).
Proof.
  induction times as [|t times IH]; intros store w i E Hin Hi; [cbn in Hi; lia|].
  apply Forall_cons in Hin as [Ht Hin].
  rewrite calls_step, (checkRateLimit_kept t key config store w E Ht).
  cbn zeta. cbn [fst snd].
  destruct i as [|i]; cbn [lookup list_lookup].
  - do 3 f_equal. lia.
  - cbn in Hi. erewrite IH;
      [|apply lookup_insert_eq|exact Hin|lia].
    cbn [count resetTime]. do 3 f_equal. lia.
Qed.

(** A fresh identity: the first call at [t0] opens the window, and the
    [i]-th call of the run (from 0) leaves [maxRequests - (i + 1)] requests,
    floored at 0, as long as the later calls come no later than
    [t0 + windowMs]. *)
Lemma calls_fresh_window t0 times store (i : nat) :
  store !! key = None ->
  inherited key = false ->
  Forall (fun t => t <= t0 + windowMs config) times ->
  (i <= length times)%nat ->
  (calls (t0 :: times) key config store).1 !! i =
    Some {| limit := maxRequests config;
            remaining := Z.max 0 (maxRequests config - (Z.of_nat i + 1));
            reset := t0 + windowMs config |}.
Proof.
  intros E Hkey Hin Hi.
  rewrite calls_step, (checkRateLimit_unfold t0 key config Hkey), E.
  cbn zeta. cbn [fst snd entry_after].
  destruct i as [|i]; cbn [lookup list_lookup].
  - reflexivity.
  - erewrite calls_in_window; [|apply lookup_insert_eq|exact Hin|lia].
    unfold info_of. cbn [count resetTime]. do 3 f_equal. lia.
Qed.

End Runs.

(** C1, the call the code gets wrong: under the default limit of 20, the
    20th call of a fresh identity inside one window already comes back with
    [remaining = 0], which [isRateLimited] reads as a rejection; only 19
    calls of a window are accepted.  The identity is any that is not the
    name of a member the store object inherits. *)
Theorem C1_twentieth_call_rejected key t0 times store :
  store !! key = None ->
  inherited key = false ->
  length times = 19%nat ->
  Forall (fun t => t <= t0 + windowMs DEFAULT_RATE_LIMIT) times ->
  exists info,
    (calls (t0 :: times) key DEFAULT_RATE_LIMIT store).1 !! 19%nat = Some info /\
    limit info = 20 /\
    remaining info = 0 /\
    isRateLimited info = true.
Proof.
  intros E Hkey Hlen Hin. eexists. split.
  - apply calls_fresh_window; [exact E|exact Hkey|exact Hin|lia].
  - cbn. repeat split.
Qed.

(** Twenty calls of one identity, at times 0, 1, ..., 1. *)
Lemma C1_twentieth_call_rejected_witness :
  exists info,
    (calls (0 :: replicate 19 1) "u" DEFAULT_RATE_LIMIT ∅).1 !! 19%nat
      = Some info /\
    limit info = 20 /\
    remaining info = 0 /\
    isRateLimited info = true.
Proof.
  apply (C1_twentieth_call_rejected "u" 0 (replicate 19 1) ∅).
  - reflexivity.
  - reflexivity.
  - reflexivity.
  - apply Forall_replicate. cbn. lia.
Defined.

(** The rest of scenario C holds on the code: calls 1 to 19 are accepted,
    the 21st is rejected with [remaining = 0] and a [reset] not before its
    own call time, and a call made strictly after [reset] is accepted with
    [remaining = limit - 1]. *)
Lemma scenario_C_first_nineteen key t0 times store (i : nat) :
  store !! key = None ->
  inherited key = false ->
  Forall (fun t => t <= t0 + windowMs DEFAULT_RATE_LIMIT) times ->
  (i <= length times)%nat -> (i < 19)%nat ->
  exists info,
    (calls (t0 :: times) key DEFAULT_RATE_LIMIT store).1 !! i = Some info /\
    remaining info = 19 - Z.of_nat i /\
    isRateLimited info = false.
Proof.
  intros E Hkey Hin Hi H19. eexists. split.
  - apply calls_fresh_window; [exact E|exact Hkey|exact Hin|lia].
  - unfold isRateLimited. cbn [remaining].
    change (maxRequests DEFAULT_RATE_LIMIT) with 20.
    split; [f_equal; lia|]. apply Z.leb_gt. lia.
Qed.

Lemma scenario_C_twenty_first key t0 times t21 store :
  store !! key = None ->
  inherited key = false ->
  length times = 19%nat ->
  Forall (fun t => t <= t0 + windowMs DEFAULT_RATE_LIMIT) (times ++ [t21]) ->
  exists info reset,
    (calls (t0 :: times ++ [t21]) key DEFAULT_RATE_LIMIT store).1 !! 20%nat
      = Some info /\
    remaining info = 0 /\ isRateLimited info = true /\
    RateLimit.reset info = Num reset /\ t21 <= reset.
Proof.
  intros E Hkey Hlen Hin. eexists _, _. split.
  - apply calls_fresh_window; [exact E|exact Hkey|exact Hin|].
    rewrite length_app, Hlen. cbn. lia.
  - cbn [remaining reset]. repeat split.
    rewrite Forall_app, Forall_singleton in Hin. apply Hin.
Qed.

Lemma scenario_C_after_reset now key config store w :
  store !! key = Some w ->
  inherited key = false ->
  resetTime w < now ->
  1 <= maxRequests config ->
  let info := (checkRateLimit now key config store).1 in
  remaining info = limit info - 1 /\ isRateLimited info = (limit info <=? 1).
Proof.
  intros E Hkey Hlt Hmax. rewrite checkRateLimit_info, E by assumption.
  unfold entry_after.
  destruct (Z.ltb_spec (resetTime w) now); [|lia].
  unfold isRateLimited, info_of. cbn [remaining limit count].
  split; [f_equal; lia|].
  destruct (Z.leb_spec (Z.max 0 (maxRequests config - 1)) 0),
    (Z.leb_spec (maxRequests config) 1); try reflexivity; lia.
Qed.

End RateLimitFacts.

(** ** Role resolution *)

Module AuthFacts.
Import Auth.

Lemma getUserRole_admin_iff supabase userId :
  getUserRole supabase userId = "admin" <-> stored_admin supabase userId.
Proof.
  unfold getUserRole, stored_admin.
  destruct (user_roles_single supabase userId) as [[d|] [e|]]; cbn;
    split; try discriminate; try (intros (d' & [=] & _); fail).
  - intros H. exists d. now split.
  - intros (d' & [= ->] & H). exact H.
Qed.

(** C10: role resolution fails closed.  When the [user_roles] lookup comes
    back with an error or without a row, [getUserRole] answers ['user'];
    [requireAdmin] returns a user only if that user's lookup succeeded with
    a stored ['admin'] role, and throws an [AuthError] for every
    authenticated user without one (and for every unauthenticated call). *)
Theorem C10_role_resolution_fails_closed supabase :
  (forall userId,
     error (user_roles_single supabase userId) <> None \/
     data (user_roles_single supabase userId) = None ->
     getUserRole supabase userId = "user") /\
  (forall u, requireAdmin supabase = Return u ->
     requireAuth supabase = Return u /\ stored_admin supabase (id u)) /\
  (forall u, requireAuth supabase = Return u ->
     ~ stored_admin supabase (id u) ->
     requireAdmin supabase = ThrowAuthError "Admin access required") /\
  (forall message, requireAuth supabase = ThrowAuthError message ->
     requireAdmin supabase = ThrowAuthError message).
Proof.
  split; [|split; [|split]].
  - intros userId H. unfold getUserRole.
    destruct (user_roles_single supabase userId) as [[d|] [e|]]; cbn in *;
      try reflexivity.
    destruct H as [H|H]; congruence.
  - intros u H. unfold requireAdmin in H.
    destruct (requireAuth supabase) as [u'|m]; cbn in H; [|discriminate].
    destruct (String.eqb_spec (getUserRole supabase (id u')) "admin") as [E|E];
      cbn in H; [|discriminate].
    injection H as ->. split; [reflexivity|]. now apply getUserRole_admin_iff.
  - intros u Hauth Hno. unfold requireAdmin. rewrite Hauth. cbn.
    destruct (String.eqb_spec (getUserRole supabase (id u)) "admin") as [E|E];
      [|reflexivity].
    exfalso. now apply Hno, getUserRole_admin_iff.
  - intros message Hauth. unfold requireAdmin. now rewrite Hauth.
Qed.

(** A user with no row in [user_roles] is refused. *)
Lemma C10_witness :
  requireAdmin (client_with None) = ThrowAuthError "Admin access required".
Proof.
  apply (proj1 (proj2 (proj2 (C10_role_resolution_fails_closed
                                (client_with None)))) u1).
  - reflexivity.
  - intros (d & H & _). discriminate H.
Defined.

Example requireAdmin_stored_admin :
  requireAdmin (client_with (Some "admin")) = Return u1.
Proof. reflexivity. Qed.

Example requireAdmin_stored_user :
  requireAdmin (client_with (Some "user"))
  = ThrowAuthError "Admin access required".
Proof. reflexivity. Qed.

End AuthFacts.

(** ** Hybrid ranker *)

Module RankerFacts.
Import Ranker.

(** *** Arithmetic on [number] *)

Lemma Qc_ltb_lt (x y : Qc) : Qc_ltb x y = true <-> (x < y)%Qc.
Proof.
  unfold Qc_ltb, Qclt. rewrite negb_true_iff, <- not_true_iff_false, Qle_bool_iff.
  split; [apply Qnot_le_lt|apply Qlt_not_le].
Qed.

Lemma Qc_ltb_ge (x y : Qc) : Qc_ltb x y = false <-> (y <= x)%Qc.
Proof.
  rewrite <- not_true_iff_false, Qc_ltb_lt. split; [apply Qcnot_lt_le|apply Qcle_not_lt].
Qed.

Lemma positive_sub (a b : number) :
  positive (sub b a) = true <->
  exists x y, a = Num x /\ b = Num y /\ (x < y)%Qc.
Proof.
  destruct a as [|x], b as [|y]; cbn;
    try (split; [discriminate|intros (? & ? & ? & ? & _); discriminate]).
  unfold Qcminus. rewrite Qc_ltb_lt, <- (Qclt_minus_iff x y). split.
  - intros H. now exists x, y.
  - now intros (? & ? & [= <-] & [= <-] & H).
Qed.

Lemma geq_trans (a b c : number) : geq a b -> geq b c -> geq a c.
Proof.
  destruct a, b, c; cbn; try tauto. intros H1 H2. now apply Qcle_trans with q0.
Qed.

Lemma geq_is_num (a b : number) : geq a b -> is_num a /\ is_num b.
Proof. destruct a, b; cbn; tauto. Qed.

(** *** The sort *)

Section SortFacts.
Context {A : Type} (cmp : A -> A -> number).

Lemma insert_perm a l : insert cmp a l ≡ₚ a :: l.
Proof.
  induction l as [|b l IH]; cbn; [reflexivity|].
  destruct (positive (cmp a b)); [|reflexivity].
  rewrite IH. apply Permutation_swap.
Qed.

Lemma sort_perm l : sort cmp l ≡ₚ l.
Proof.
  induction l as [|a l IH]; cbn; [reflexivity|].
  now rewrite insert_perm, IH.
Qed.


(** Stability: elements that the comparator never orders strictly keep
    their relative order. *)
Section Stable.
Context (P : A -> Prop) `{!forall a, Decision (P a)}.
Hypothesis tie : forall a b, P a -> P b -> positive (cmp a b) = false.

Lemma insert_filter a l :
  filter P (insert cmp a l) = filter P (a :: l).
Proof.
  induction l as [|b l IH]; cbn [insert]; [reflexivity|].
  destruct (positive (cmp a b)) eqn:E; [|reflexivity].
  rewrite filter_cons, IH, !filter_cons.
  destruct (decide (P b)) as [Hb|Hb], (decide (P a)) as [Ha|Ha]; try reflexivity.
  rewrite tie in E by assumption. discriminate.
Qed.

Lemma sort_filter l : filter P (sort cmp l) = filter P l.
Proof.
  induction l as [|a l IH]; cbn [sort foldr]; [reflexivity|].
  fold (sort cmp l). rewrite insert_filter, !filter_cons, IH. reflexivity.
Qed.

End Stable.

(** Order: where the comparator is the sign of a transitive relation [R]
    on the elements satisfying [D], the result is sorted by [R]. *)
Section Sorted.
Context (D : A -> Prop) (R : A -> A -> Prop).
Hypothesis R_trans : forall a b c, R a b -> R b c -> R a c.
Hypothesis keep : forall a b, D a -> D b -> positive (cmp a b) = false -> R a b.
Hypothesis swap : forall a b, D a -> D b -> positive (cmp a b) = true -> R b a.

Lemma insert_sorted a l :
  D a -> Forall D l ->
  StronglySorted R l -> StronglySorted R (insert cmp a l).
Proof.
  intros Da Dl Hs. induction Hs as [|b l Hs IH Hb]; cbn [insert].
  - repeat constructor.
  - apply Forall_cons in Dl as [Db Dl].
    destruct (positive (cmp a b)) eqn:E.
    + constructor; [now apply IH|].
      rewrite insert_perm. constructor; [now apply swap|exact Hb].
    + constructor; [now constructor|].
      constructor; [now apply keep|].
      eapply Forall_impl; [exact Hb|]. intros c Hc. cbn in Hc.
      eapply R_trans; [|exact Hc]. now apply keep.
Qed.

Lemma sort_sorted l : Forall D l -> StronglySorted R (sort cmp l).
Proof.
  induction 1 as [|a l Da Dl IH]; cbn [sort foldr]; [constructor|].
  fold (sort cmp l). apply insert_sorted; [exact Da| |exact IH].
  now rewrite sort_perm.
Qed.

End Sorted.
End SortFacts.



(** *** Scores *)











Lemma assign_is_num now c :
  well_formed c -> is_num (combinedScore (assign now c)).
Proof.
  unfold well_formed, assign, recencyScore, age. cbn.
  destruct (score c), (image_purchase_date (metadata c)); cbn; tauto.
Qed.


Lemma comparefn_keep a b :
  is_num (combinedScore a) -> is_num (combinedScore b) ->
  positive (comparefn a b) = false -> geq (combinedScore a) (combinedScore b).
Proof.
  unfold comparefn. destruct (combinedScore a) as [|x], (combinedScore b) as [|y];
    cbn; try tauto.
  intros _ _ H. apply Qc_ltb_ge in H.
  apply Qcle_minus_iff. apply Qcopp_le_compat in H.
  replace (x + - y)%Qc with (- (y - x))%Qc by ring. exact H.
Qed.

Lemma comparefn_swap a b :
  positive (comparefn a b) = true -> geq (combinedScore b) (combinedScore a).
Proof.
  unfold comparefn. intros (x & y & -> & -> & H)%positive_sub. cbn.
  now apply Qclt_le_weak.
Qed.

Lemma sorted_by_score now candidates :
  Forall well_formed candidates ->
  StronglySorted (fun a b => geq (combinedScore a) (combinedScore b))
    (sort comparefn (map (assign now) candidates)).
Proof.
  intros Hwf.
  apply (sort_sorted comparefn (fun r => is_num (combinedScore r))).
  - intros a b c. apply geq_trans.
  - apply comparefn_keep.
  - intros a b _ _. apply comparefn_swap.
  - apply Forall_fmap. eapply Forall_impl; [exact Hwf|].
    intros c Hc. now apply assign_is_num.
Qed.



Example rank_sample :
  map (fun r => id (source r)) (rank sample_now sample_candidates)
  = ["b"; "c"; "a"].
Proof. vm_compute. reflexivity. Qed.


(** *** Stability *)

Lemma comparefn_tie v a b :
  combinedScore a = v -> combinedScore b = v ->
  positive (comparefn a b) = false.
Proof.
  unfold comparefn. intros Ha Hb. rewrite Ha, Hb. destruct v as [|q]; cbn;
    [reflexivity|].
  apply Qc_ltb_ge. replace (q - q)%Qc with 0%Qc by ring. apply Qcle_refl.
Qed.


(** *** Scenario B *)

Section ScenarioB.
Context (now : Z) (fresh : candidate) (older1 older2 : list candidate).
Hypothesis fresh_score : score fresh = Num (Q2Qc (5 # 10)).
Hypothesis fresh_date : image_purchase_date (metadata fresh) = of_Z now.
Hypothesis older :
  Forall (fun c => score c = Num (Q2Qc (5 # 10)) /\
                   image_purchase_date (metadata c) = of_Z (now - FIVE_YEARS_MS))
         (older1 ++ older2).





End ScenarioB.

(** On candidates whose scores are numbers the comparator is consistent,
    and then there is only one stable sorted arrangement: whatever stable
    algorithm the runtime uses, it returns the list [sort] computes. *)
Lemma stable_sorted_unique (l1 l2 : list ranked) :
  StronglySorted (fun a b => geq (combinedScore a) (combinedScore b)) l1 ->
  StronglySorted (fun a b => geq (combinedScore a) (combinedScore b)) l2 ->
  (forall v, filter (fun r => combinedScore r = v) l1
             = filter (fun r => combinedScore r = v) l2) ->
  l1 = l2.
Proof.
  intros H1. revert l2. induction H1 as [|a l1 H1 IH Ha]; intros l2 H2 Hf.
  - destruct l2 as [|b l2]; [reflexivity|].
    specialize (Hf (combinedScore b)). rewrite filter_nil, filter_cons in Hf.
    destruct (decide (combinedScore b = combinedScore b)); [discriminate|congruence].
  - destruct H2 as [|b l2 H2 Hb].
    { specialize (Hf (combinedScore a)). rewrite filter_nil, filter_cons in Hf.
      destruct (decide (combinedScore a = combinedScore a)); [discriminate|congruence]. }
    assert (a = b) as <-.
    { pose proof (Hf (combinedScore a)) as Hfa.
      pose proof (Hf (combinedScore b)) as Hfb.
      rewrite !filter_cons in Hfa, Hfb.
      destruct (decide (combinedScore a = combinedScore a)); [|congruence].
      destruct (decide (combinedScore b = combinedScore b)); [|congruence].
      destruct (decide (combinedScore b = combinedScore a)) as [E|E].
      { now injection Hfa. }
      destruct (decide (combinedScore a = combinedScore b)); [congruence|].
      assert (a ∈ l2) as Hin2.
      { eapply (list_elem_of_filter (fun r => combinedScore r = combinedScore a)).
        rewrite <- Hfa. now left. }
      assert (b ∈ l1) as Hin1.
      { eapply (list_elem_of_filter (fun r => combinedScore r = combinedScore b)).
        rewrite Hfb. now left. }
      eapply Forall_forall in Ha; [|exact Hin1].
      eapply Forall_forall in Hb; [|exact Hin2].
      cbv beta in Ha, Hb. exfalso. apply E.
      destruct (combinedScore a) as [|x], (combinedScore b) as [|y];
        cbn in Ha, Hb; try tauto.
      f_equal. now apply Qcle_antisym. }
    f_equal. apply IH; [exact H2|]. intros v. specialize (Hf v).
    rewrite !filter_cons in Hf. destruct (decide (combinedScore a = v)); congruence.
Qed.

Lemma sort_unique now candidates l :
  Forall well_formed candidates ->
  StronglySorted (fun a b => geq (combinedScore a) (combinedScore b)) l ->
  (forall v, filter (fun r => combinedScore r = v) l
             = filter (fun r => combinedScore r = v) (map (assign now) candidates)) ->
  l = sort comparefn (map (assign now) candidates).
Proof.
  intros Hwf Hs Hf. apply stable_sorted_unique; [exact Hs| |].
  - now apply sorted_by_score.
  - intros v. rewrite Hf. symmetry. apply sort_filter.
    intros a b. apply comparefn_tie.
Qed.



(** *** Malformed timestamps *)






End RankerFacts.

(** ** The ranker in binary64: the examples, with the runtime's numbers *)

Module Ranker64Facts.
Import Ranker64.

Example binary64_recencyScore_at_now :
  recencyScore Ranker.sample_now scenario_B_fresh = 1%float.
Proof. vm_compute. reflexivity. Qed.

Example binary64_recencyScore_older :
  recencyScore Ranker.sample_now (mk "old" 0.5
     (of_Z (Ranker.sample_now - Ranker.FIVE_YEARS_MS))) = 0%float.
Proof. vm_compute. reflexivity. Qed.

Example binary64_rank_sample :
  map (fun r => id (source r)) (rank Ranker.sample_now sample_candidates)
  = ["b"; "c"; "a"].
Proof. vm_compute. reflexivity. Qed.

(** Scenario B, the just-acquired candidate last in the input. *)
Example binary64_scenario_B_last :
  map (fun r => id (source r))
      (rank Ranker.sample_now (scenario_B_older ++ [scenario_B_fresh]))
  = "new" :: replicate 9 "old".
Proof. vm_compute. reflexivity. Qed.

(** A timestamp that is not a number: the candidate is scored [NaN] and
    kept. *)
Example binary64_malformed_kept :
  In ("bad", true)
     (map (fun r => (id (source r), PrimFloat.is_nan (combinedScore r)))
          (rank Ranker.sample_now with_malformed)).
Proof. vm_compute. right. left. reflexivity. Qed.

End Ranker64Facts.

(** ** What [extractJson] hands to [JSON.parse] *)

Module ExtractJsonFacts.
Import Types Gemini Markdown.

Local Open Scope string_scope.

Ltac app_step :=
  repeat match goal with
  | |- context [String.append (String ?c ?a) ?b] =>
      change (String.append (String c a) b) with (String c (String.append a b))
  | |- context [String.append EmptyString ?b] =>
      change (String.append EmptyString b) with b
  end.

Lemma list_ascii_app (a b : string) :
  String.list_ascii_of_string (a ++ b)
  = (String.list_ascii_of_string a ++ String.list_ascii_of_string b)%list.
Proof. induction a as [|c a IH]; app_step; simpl; [reflexivity|now rewrite IH]. Qed.

Lemma string_of_list_app (l k : list ascii) :
  String.string_of_list_ascii (l ++ k)
  = String.string_of_list_ascii l ++ String.string_of_list_ascii k.
Proof. induction l as [|c l IH]; simpl; [reflexivity|now rewrite IH]. Qed.

Lemma reverse_string_app a b :
  reverse_string (a ++ b) = reverse_string b ++ reverse_string a.
Proof.
  unfold reverse_string. now rewrite list_ascii_app, rev_app_distr, string_of_list_app.
Qed.

Lemma reverse_string_involutive s : reverse_string (reverse_string s) = s.
Proof.
  unfold reverse_string.
  now rewrite String.list_ascii_of_string_of_list_ascii, rev_involutive,
    String.string_of_list_ascii_of_string.
Qed.

Lemma strip_backtick ws fuel rest :
  List.find (fun w => String.prefix w (String backtick rest)) ws = None ->
  strip ws fuel (String backtick rest) = String backtick rest.
Proof. intros H. destruct fuel; cbn [strip]; [reflexivity|now rewrite H]. Qed.

Lemma trimStart_backtick rest :
  trimStart (String backtick rest) = String backtick rest.
Proof. unfold trimStart. now rewrite strip_backtick. Qed.

Lemma trimEnd_backtick y : trimEnd (y ++ "`") = y ++ "`".
Proof.
  unfold trimEnd. rewrite reverse_string_app.
  change (reverse_string "`" ++ reverse_string y)
    with (String backtick (reverse_string y)).
  rewrite strip_backtick by reflexivity.
  change (String backtick (reverse_string y))
    with (reverse_string "`" ++ reverse_string y).
  now rewrite <- reverse_string_app, reverse_string_involutive.
Qed.

Lemma trim_between_backticks x :
  trim (String backtick (x ++ "`")) = String backtick (x ++ "`").
Proof.
  unfold trim. rewrite trimStart_backtick.
  change (String backtick (x ++ "`")) with ((String backtick x) ++ "`").
  apply trimEnd_backtick.
Qed.

Lemma append_assoc (a b c : string) : (a ++ b) ++ c = a ++ (b ++ c).
Proof. induction a as [|x a IH]; app_step; [reflexivity|now rewrite IH]. Qed.

Lemma append_empty (a : string) : a ++ "" = a.
Proof. induction a as [|x a IH]; app_step; [reflexivity|now rewrite IH]. Qed.

(** A pattern that matches nowhere inside [body] leaves it as it is. *)
Lemma remove_from_app match_at body tail :
  (forall pre c post, body = pre ++ String c post ->
     match_at (String c (post ++ tail)) = None) ->
  remove_from match_at 0 (body ++ tail) = body ++ remove_from match_at 0 tail.
Proof.
  induction body as [|c body IH]; intros H; [reflexivity|].
  app_step. cbn [remove_from].
  rewrite (H "" c body eq_refl). f_equal. apply IH.
  intros pre d post ->. apply (H (String c pre) d post). reflexivity.
Qed.

Lemma fence_free_split pre c post :
  fence_free (pre ++ String c post) -> c <> backtick /\ fence_free post.
Proof.
  unfold fence_free. rewrite list_ascii_app. simpl. intros H. split.
  - intros ->. apply H, in_or_app. right. now left.
  - intros Hin. apply H, in_or_app. right. now right.
Qed.

Lemma string_prefix_cons a l c rest :
  String.prefix (String a l) (String c rest)
  = if Ascii.ascii_dec a c then String.prefix l rest else false.
Proof. reflexivity. Qed.

Lemma prefix_backtick l c rest :
  c <> backtick -> String.prefix (String backtick l) (String c rest) = false.
Proof.
  intros H. rewrite string_prefix_cons. destruct (Ascii.ascii_dec backtick c) as [<-|]; [congruence|reflexivity].
Qed.

Lemma then_optional_LF_body l c rest :
  c <> backtick -> then_optional_LF (String backtick l) (String c rest) = None.
Proof. intros H. unfold then_optional_LF. now rewrite prefix_backtick. Qed.

Lemma optional_LF_then_fence_body c post tail :
  c <> backtick -> fence_free post ->
  (tail = "" \/ exists t, tail = String LF t) ->
  optional_LF_then_fence (String c (post ++ tail)) = None.
Proof.
  intros Hc Hpost Htail. unfold optional_LF_then_fence.
  rewrite (prefix_backtick _ c) by assumption.
  rewrite string_prefix_cons. destruct (Ascii.ascii_dec LF c) as [<-|]; [|reflexivity].
  destruct post as [|d post]; app_step.
  - destruct Htail as [->|[t ->]]; reflexivity.
  - rewrite prefix_backtick; [reflexivity|].
    intros ->. apply Hpost. cbn. now left.
Qed.

Lemma trim_fence_block a b :
  trim (String backtick (a ++ b ++ String LF "```"))
  = String backtick (a ++ b ++ String LF "```").
Proof.
  replace (a ++ b ++ String LF "```") with ((a ++ b ++ String LF "``") ++ "`")
    by (now rewrite !append_assoc).
  apply trim_between_backticks.
Qed.

Lemma remove_opening_json rest :
  remove_from (then_optional_LF "```json") 0 ("```json" ++ String LF rest)
  = remove_from (then_optional_LF "```json") 0 rest.
Proof. reflexivity. Qed.

Lemma remove_opening_plain rest :
  remove_from (then_optional_LF "```") 0 ("```" ++ String LF rest)
  = remove_from (then_optional_LF "```") 0 rest.
Proof. reflexivity. Qed.

Lemma remove_opening_body l body tail :
  fence_free body ->
  remove_from (then_optional_LF (String backtick l)) 0 (body ++ tail)
  = body ++ remove_from (then_optional_LF (String backtick l)) 0 tail.
Proof.
  intros Hbody. apply remove_from_app. intros pre c post ->.
  apply then_optional_LF_body. now apply fence_free_split in Hbody.
Qed.

Lemma remove_closing_body body tail :
  fence_free body ->
  (tail = "" \/ exists t, tail = String LF t) ->
  remove_from optional_LF_then_fence 0 (body ++ tail)
  = body ++ remove_from optional_LF_then_fence 0 tail.
Proof.
  intros Hbody Htail. apply remove_from_app. intros pre c post ->.
  apply fence_free_split in Hbody as [Hc Hpost].
  now apply optional_LF_then_fence_body.
Qed.

Lemma extractJson_fenced_body body :
  fence_free body ->
  extractJson (fenced "json" body) = body /\
  extractJson (fenced "" body) = body ++ String LF "".
Proof.
  intros Hbody. unfold extractJson, fenced, remove_all. split.
  - change ("```" ++ "json" ++ String LF body ++ String LF "```")
      with (String backtick (("``json" ++ String LF "") ++ body ++ String LF "```")).
    rewrite trim_fence_block.
    replace (startsWith _ "```json") with true by reflexivity.
    change (String backtick (("``json" ++ String LF "") ++ body ++ String LF "```"))
      with ("```json" ++ String LF (body ++ String LF "```")).
    rewrite remove_opening_json, remove_opening_body by assumption.
    change (remove_from (then_optional_LF "```json") 0 (String LF "```"))
      with (String LF "```").
    rewrite remove_closing_body by (assumption || (right; now eexists)).
    apply append_empty.
  - change ("```" ++ "" ++ String LF body ++ String LF "```")
      with (String backtick (("``" ++ String LF "") ++ body ++ String LF "```")).
    rewrite trim_fence_block.
    replace (startsWith _ "```json") with false by reflexivity.
    replace (startsWith _ "```") with true by reflexivity.
    change (String backtick (("``" ++ String LF "") ++ body ++ String LF "```"))
      with ("```" ++ String LF (body ++ String LF "```")).
    rewrite remove_opening_plain, remove_opening_body by assumption.
    change (remove_from (then_optional_LF "```") 0 (String LF "```"))
      with (String LF "").
    rewrite remove_closing_body by (assumption || (right; now eexists)).
    reflexivity.
Qed.



Local Close Scope string_scope.

End ExtractJsonFacts.

(** ** Response generator *)

Module GeminiFacts.
Import Types Gemini.

(** *** The schemas return what they read *)

Lemma z_string_Some input s : z_string input = Some s -> input = Some (JString s).
Proof. destruct input as [[]|]; cbn; congruence. Qed.

Lemma z_string_uuid_Some input s :
  z_string_uuid input = Some s -> input = Some (JString s) /\ is_uuid s = true.
Proof.
  unfold z_string_uuid. destruct (z_string input) as [s'|] eqn:E; cbn; [|discriminate].
  destruct (is_uuid s') eqn:U; [|discriminate].
  intros [= <-]. split; [now apply z_string_Some|exact U].
Qed.

Lemma z_string_optional_nullable_Some input v :
  z_string_optional_nullable input = Some v -> input = json_of_optional v.
Proof. destruct input as [[]|]; cbn; try discriminate; now intros [= <-]. Qed.

Lemma BrandonAssetSchema_Some j a :
  BrandonAssetSchema (Some j) = Some a -> asset_of j a /\ is_uuid (id a) = true.
Proof.
  destruct j as [| | | | |o]; cbn; try discriminate.
  destruct (z_string_uuid (field "id" o)) as [i|] eqn:Ei; cbn; [|discriminate].
  destruct (z_string_optional_nullable (field "dam_id" o)) as [d|] eqn:Ed;
    cbn; [|discriminate].
  destruct (z_string_optional_nullable (field "file_name" o)) as [f|] eqn:Ef;
    cbn; [|discriminate].
  destruct (z_string_optional_nullable (field "url" o)) as [u|] eqn:Eu;
    cbn; [|discriminate].
  destruct (z_string (field "preview_path" o)) as [p|] eqn:Ep; cbn; [|discriminate].
  destruct (z_string (field "label" o)) as [l|] eqn:El; cbn; [|discriminate].
  destruct (z_string (field "reason" o)) as [r|] eqn:Er; cbn; [|discriminate].
  intros [= <-]. apply z_string_uuid_Some in Ei as [Ei U].
  split; [|exact U]. exists o. cbn.
  repeat split; auto using z_string_Some, z_string_optional_nullable_Some.
Qed.

Lemma GeminiChatResponseSchema_Some j r :
  GeminiChatResponseSchema (Some j) = Some r ->
  response_of j r /\ Forall (fun a => is_uuid (id a) = true) (assets r).
Proof.
  destruct j as [| | | | |o]; cbn -[BrandonAssetSchema]; try discriminate.
  destruct (z_string (field "assistant_message" o)) as [m|] eqn:Em;
    cbn -[BrandonAssetSchema]; [|discriminate].
  unfold z_array.
  destruct (field "assets" o) as [[| | | |items|]|] eqn:Ea;
    cbn -[BrandonAssetSchema]; try discriminate.
  destruct (mapM _ items) as [l|] eqn:El; cbn -[BrandonAssetSchema];
    [|discriminate].
  intros [= <-]. apply mapM_Some in El. cbn [assets]. split.
  - exists o, items. cbn [assistant_message assets].
    repeat split; auto using z_string_Some.
    eapply Forall2_impl; [exact El|]. intros j a H. cbv beta in H.
    apply BrandonAssetSchema_Some in H as [H _]. exact H.
  - clear -El. induction El as [|j a items l H _ IH]; constructor; [|exact IH].
    apply BrandonAssetSchema_Some in H as [_ H]. exact H.
Qed.

(** *** Outcomes of [generateChatResponse] *)

Section GeneratorFacts.
Context (chatModel : string -> list json -> thrown + string)
        (JSON_parse : string -> thrown + json).
Context (userQuery : string) (candidates : list json).

#[local] Abbreviation call_fails := (call_fails chatModel userQuery candidates).
#[local] Abbreviation parse_fails extract :=
  (parse_fails chatModel JSON_parse extract userQuery candidates).
#[local] Abbreviation validation_fails extract :=
  (validation_fails chatModel JSON_parse extract userQuery candidates).
#[local] Abbreviation validated extract :=
  (validated chatModel JSON_parse extract userQuery candidates).

(** The steps of a [try] block, one after the other: the call, the parse
    of the extracted text, the validation. *)
Ltac try_block_cases chatModel JSON_parse userQuery candidates extract :=
  let e := fresh "e" in
  let text := fresh "text" in
  let parsed := fresh "parsed" in
  let value := fresh "value" in
  destruct (chatModel userQuery candidates) as [e|text] eqn:?; cbn [try_bind];
    [left; exists e; split; [reflexivity|]; left; now exists e|];
  destruct (JSON_parse (extract text)) as [e|parsed] eqn:?; cbn [try_bind];
    [left; exists e; split; [reflexivity|]; right; left; now exists text, e|];
  destruct (GeminiChatResponseSchema (Some parsed)) as [value|] eqn:?;
    [right; exists value; split; [reflexivity|]; exists text, parsed;
     repeat split; try assumption; now apply GeminiChatResponseSchema_Some
    |left; exists ZodError; split; [reflexivity|]; right; right;
     now exists text, parsed].

Lemma attempt_cases :
  (exists error, attempt chatModel JSON_parse userQuery candidates = inl error /\
     (call_fails \/ parse_fails extractJson \/ validation_fails extractJson)) \/
  (exists value, attempt chatModel JSON_parse userQuery candidates = inr value /\
     validated extractJson value).
Proof.
  unfold attempt, Gemini.call_fails, Gemini.parse_fails,
    Gemini.validation_fails, Gemini.validated, validate.
  try_block_cases chatModel JSON_parse userQuery candidates extractJson.
Qed.

Lemma attempt_direct_cases :
  (exists error,
     attempt_direct chatModel JSON_parse userQuery candidates = inl error /\
     (call_fails \/ parse_fails (fun text => text)
      \/ validation_fails (fun text => text))) \/
  (exists value,
     attempt_direct chatModel JSON_parse userQuery candidates = inr value /\
     validated (fun text => text) value).
Proof.
  unfold attempt_direct, Gemini.call_fails, Gemini.parse_fails,
    Gemini.validation_fails, Gemini.validated, validate.
  try_block_cases chatModel JSON_parse userQuery candidates (fun text : string => text).
Qed.

(** Both revisions, by cases on their [try] block. *)
Lemma generateChatResponse_cases :
  (generateChatResponse chatModel JSON_parse userQuery candidates
     = ThrowError generic_message /\
   (call_fails \/ parse_fails extractJson \/ validation_fails extractJson)) \/
  (exists value,
     generateChatResponse chatModel JSON_parse userQuery candidates
       = Return value /\
     validated extractJson value).
Proof.
  unfold generateChatResponse.
  destruct attempt_cases as [(e & -> & H)|(v & -> & H)]; [left|right]; eauto.
Qed.

Lemma generateChatResponse_direct_cases :
  (generateChatResponse_direct chatModel JSON_parse userQuery candidates
     = ThrowError generic_message /\
   (call_fails \/ parse_fails (fun text => text)
    \/ validation_fails (fun text => text))) \/
  (exists value,
     generateChatResponse_direct chatModel JSON_parse userQuery candidates
       = Return value /\
     validated (fun text => text) value).
Proof.
  unfold generateChatResponse_direct.
  destruct attempt_direct_cases as [(e & -> & H)|(v & -> & H)]; [left|right];
    eauto.
Qed.

End GeneratorFacts.

(** The two outcomes, against the three-part statement about them. *)
Ltac throws_generic H :=
  split; [|split];
    [split; [intros _; exact H|intros _; eauto]
    |now intros ? [= <-]
    |discriminate].

Ltac returns_validated H :=
  split; [|split];
    [split; [intros [? [=]]|];
     unfold call_fails, parse_fails, validation_fails;
     destruct H as (? & ? & ? & ? & ? & _);
     intros [(? & ?)|[(? & ? & ? & ?)|(? & ? & ? & ? & ?)]]; congruence
    |discriminate
    |now intros ? [= <-]].




(** The later revision of the file behaves the same, on the reply as it is. *)
Lemma generateChatResponse_direct_throws_iff
    chatModel JSON_parse userQuery candidates :
  let result :=
    generateChatResponse_direct chatModel JSON_parse userQuery candidates in
  ((exists message, result = ThrowError message) <->
     call_fails chatModel userQuery candidates \/
     parse_fails chatModel JSON_parse (fun text => text) userQuery candidates \/
     validation_fails chatModel JSON_parse (fun text => text)
       userQuery candidates) /\
  (forall message, result = ThrowError message ->
     message = "Failed to generate chat response") /\
  (forall value, result = Return value ->
     validated chatModel JSON_parse (fun text => text)
       userQuery candidates value).
Proof.
  cbv zeta.
  destruct (generateChatResponse_direct_cases chatModel JSON_parse
              userQuery candidates) as [[-> H]|(v & -> & H)].
  - throws_generic H.
  - returns_validated H.
Qed.

(** *** Identifiers of the returned assets *)

Lemma asset_ids_uuid value :
  Forall (fun a => is_uuid (id a) = true) (assets value) ->
  Forall (fun i => is_uuid i = true) (asset_ids value).
Proof. intros H. unfold asset_ids. now apply Forall_fmap. Qed.

(** C3, as stated, fails: a reply that parses and validates is returned
    with an asset identifier that no supplied candidate has. *)
Lemma C3_counterexample :
  generateChatResponse fabricating_model JSON_parse_text
    "show me a car" one_candidate = Return fabricated_value /\
  generateChatResponse_direct fabricating_model JSON_parse_text
    "show me a car" one_candidate = Return fabricated_value /\
  asset_ids fabricated_value = ["99999999-9999-4999-8999-999999999999"] /\
  candidate_ids one_candidate = ["11111111-1111-4111-8111-111111111111"] /\
  ~ (forall i, i ∈ asset_ids fabricated_value -> i ∈ candidate_ids one_candidate).
Proof.
  split; [vm_compute; reflexivity|]. split; [vm_compute; reflexivity|].
  split; [reflexivity|]. split; [reflexivity|].
  intros H. specialize (H "99999999-9999-4999-8999-999999999999").
  cbn in H. rewrite !list_elem_of_singleton in H.
  specialize (H eq_refl). discriminate H.
Qed.

(** C3, amended: when [generateChatResponse] accepts a reply, the value it
    returns is that reply as validated: every returned asset is an element
    of the reply's [assets] array, its identifier a UUID-shaped string read
    from there.  The supplied candidates are not consulted: any call that
    gets the same reply from the model returns the same value. *)
Theorem C3_assets_are_those_of_the_reply
    chatModel JSON_parse userQuery candidates value :
  generateChatResponse chatModel JSON_parse userQuery candidates = Return value ->
  validated chatModel JSON_parse extractJson userQuery candidates value /\
  Forall (fun i => is_uuid i = true) (asset_ids value) /\
  (forall userQuery' candidates',
     chatModel userQuery' candidates' = chatModel userQuery candidates ->
     generateChatResponse chatModel JSON_parse userQuery' candidates'
       = Return value).
Proof.
  intros H.
  destruct (generateChatResponse_cases chatModel JSON_parse userQuery candidates)
    as [[E _]|(v & E & Hv)]; rewrite E in H; [discriminate|].
  injection H as ->. split; [exact Hv|]. split.
  - destruct Hv as (t & j & _ & _ & Hs & _).
    now apply asset_ids_uuid, (GeminiChatResponseSchema_Some j).
  - intros userQuery' candidates' Hsame. rewrite <- E.
    unfold generateChatResponse, attempt. now rewrite Hsame.
Qed.

(** The fabricated reply is returned as it validates. *)
Lemma C3_witness :
  validated fabricating_model JSON_parse_text extractJson
    "show me a car" one_candidate fabricated_value /\
  Forall (fun i => is_uuid i = true) (asset_ids fabricated_value) /\
  (forall userQuery' candidates',
     fabricating_model userQuery' candidates'
       = fabricating_model "show me a car" one_candidate ->
     generateChatResponse fabricating_model JSON_parse_text userQuery' candidates'
       = Return fabricated_value).
Proof.
  apply (C3_assets_are_those_of_the_reply fabricating_model JSON_parse_text
           "show me a car" one_candidate fabricated_value).
  vm_compute. reflexivity.
Defined.

End GeminiFacts.

(** ** Rate limiting: identities, exhausted windows, the store *)

Module RateLimitLaws.
Import RateLimit RateLimitFacts.

Lemma calls_length times : forall key config (store : gmap string window),
  length (calls times key config store).1 = length times.
Proof.
  induction times as [|t times IH]; intros key config store; [reflexivity|].
  rewrite calls_step. cbn zeta. cbn [fst length]. now rewrite IH.
Qed.

(** X1.  Two identities do not interfere: a call for [key] leaves the
    answer to a later call for another identity [key'] as it would have
    been without it, and the two calls leave the same store behind in
    either order. *)
Theorem identities_do_not_interfere now key config now' key' config'
    (store : gmap string window) :
  key <> key' ->
  (checkRateLimit now' key' config' (checkRateLimit now key config store).2).1
    = (checkRateLimit now' key' config' store).1 /\
  (checkRateLimit now' key' config' (checkRateLimit now key config store).2).2
    = (checkRateLimit now key config (checkRateLimit now' key' config' store).2).2.
Proof.
  intros Hne. split.
  - rewrite (checkRateLimit_closed now' key' config'
               (checkRateLimit now key config store).2).
    rewrite (checkRateLimit_closed now' key' config' store). cbn zeta. cbn [fst].
    now rewrite checkRateLimit_other by congruence.
  - rewrite (checkRateLimit_closed now' key' config'
               (checkRateLimit now key config store).2).
    rewrite (checkRateLimit_closed now key config
               (checkRateLimit now' key' config' store).2).
    cbn zeta. cbn [snd].
    rewrite !checkRateLimit_other by congruence.
    rewrite (checkRateLimit_closed now key config store),
      (checkRateLimit_closed now' key' config' store). cbn zeta. cbn [snd].
    apply partial_alter_partial_alter_ne. congruence.
Qed.

Lemma identities_do_not_interfere_witness :
  (checkRateLimit 5 "b" DEFAULT_RATE_LIMIT
     (checkRateLimit 0 "a" DEFAULT_RATE_LIMIT ∅).2).1
    = (checkRateLimit 5 "b" DEFAULT_RATE_LIMIT ∅).1 /\
  (checkRateLimit 5 "b" DEFAULT_RATE_LIMIT
     (checkRateLimit 0 "a" DEFAULT_RATE_LIMIT ∅).2).2
    = (checkRateLimit 0 "a" DEFAULT_RATE_LIMIT
         (checkRateLimit 5 "b" DEFAULT_RATE_LIMIT ∅).2).2.
Proof.
  apply (identities_do_not_interfere 0 "a" DEFAULT_RATE_LIMIT 5 "b"
           DEFAULT_RATE_LIMIT ∅).
  discriminate.
Defined.

(** X2.  Once the window of an identity holds [maxRequests] counted calls or
    more, every further call that comes no later than its [resetTime] is
    rejected, with [remaining] 0 and the same [reset]: rejected calls do
    not push the reset time back. *)
Theorem exhausted_window_stays_closed key config (store : gmap string window)
    w times :
  store !! key = Some w ->
  maxRequests config <= count w ->
  Forall (fun t => t <= resetTime w) times ->
  Forall (fun info => isRateLimited info = true /\ remaining info = 0 /\
                      reset info = resetTime w)
         (calls times key config store).1.
Proof.
  intros E Hfull Hin. apply Forall_lookup. intros i info Hi.
  assert (i < length times)%nat as Hlt.
  { rewrite <- (calls_length times key config store). eapply lookup_lt_Some, Hi. }
  rewrite (calls_in_window key config times store w i E Hin Hlt) in Hi.
  injection Hi as <-. unfold isRateLimited, info_of. cbn [remaining reset count resetTime].
  assert (Z.max 0 (maxRequests config - (count w + Z.of_nat i + 1)) = 0) as -> by lia.
  auto.
Qed.

Lemma exhausted_window_stays_closed_witness :
  Forall (fun info => isRateLimited info = true /\ remaining info = 0 /\
                      reset info = 60000)
         (calls [100; 59999; 60000] "u" DEFAULT_RATE_LIMIT
            {[ "u" := {| count := 20; resetTime := 60000 |} ]}).1.
Proof.
  apply (exhausted_window_stays_closed "u" DEFAULT_RATE_LIMIT
           {[ "u" := {| count := 20; resetTime := 60000 |} ]}
           {| count := 20; resetTime := 60000 |} [100; 59999; 60000]).
  - reflexivity.
  - vm_compute. discriminate.
  - repeat constructor; vm_compute; discriminate.
Defined.

(** X3.  In a store the process can reach, a call adds the window of its
    own identifier and removes nothing: the window of another identifier
    stays in the store however long ago it expired.  An identifier that
    names a member the store object inherits is the exception on the first
    count: it is never given a window, and the store stays as it is. *)
Theorem store_never_forgets now key config (store : gmap string window) :
  reachable store ->
  dom (checkRateLimit now key config store).2
  = (if inherited key then ∅ else {[key]}) ∪ dom store.
Proof.
  intros Hr. destruct (inherited key) eqn:Hi.
  - rewrite checkRateLimit_inherited; [cbn [snd]; now rewrite (left_id_L ∅ (∪))|exact Hi|].
    destruct (store !! key) as [w|] eqn:E; [|reflexivity].
    destruct (reachable_own _ Hr key w E) as [Hi' _]. congruence.
  - rewrite checkRateLimit_store by exact Hi. apply dom_insert_L.
Qed.

Lemma store_never_forgets_witness :
  dom (checkRateLimit 70000 "b" DEFAULT_RATE_LIMIT
         (checkRateLimit 0 "a" DEFAULT_RATE_LIMIT ∅).2).2
  = (if inherited "b" then ∅ else {[ "b" ]})
    ∪ dom (checkRateLimit 0 "a" DEFAULT_RATE_LIMIT ∅).2.
Proof.
  apply (store_never_forgets 70000 "b" DEFAULT_RATE_LIMIT
           (checkRateLimit 0 "a" DEFAULT_RATE_LIMIT ∅).2).
  apply reachable_call, reachable_init.
Defined.

(** X4.  The quota of a fresh identity, for any configuration and any
    identifier that is not the name of a member the store object inherits:
    of the calls made within [windowMs] of the first one at [t0], the
    [i]-th (from 0) reports [maxRequests - (i + 1)] requests remaining,
    floored at 0, and the reset time [t0 + windowMs]; it is rejected
    exactly when [i + 1 >= maxRequests]. *)
Theorem remaining_counts_down key config t0 times (store : gmap string window)
    (i : nat) :
  store !! key = None ->
  inherited key = false ->
  Forall (fun t => t <= t0 + windowMs config) times ->
  (i <= length times)%nat ->
  exists info,
    (calls (t0 :: times) key config store).1 !! i = Some info /\
    remaining info = Z.max 0 (maxRequests config - (Z.of_nat i + 1)) /\
    reset info = t0 + windowMs config /\
    (isRateLimited info = true <-> maxRequests config <= Z.of_nat i + 1).
Proof.
  intros E Hkey Hin Hi. eexists. split; [now apply calls_fresh_window|].
  unfold isRateLimited. cbn [remaining reset]. repeat split; try reflexivity.
  - intros H%Z.leb_le. lia.
  - intros H. apply Z.leb_le. lia.
Qed.

Lemma remaining_counts_down_witness :
  exists info,
    (calls [0; 10; 20] "u" {| maxRequests := 2; windowMs := 1000 |} ∅).1 !! 1%nat
      = Some info /\
    remaining info = Z.max 0 (2 - (Z.of_nat 1 + 1)) /\
    reset info = 0 + 1000 /\
    (isRateLimited info = true <-> 2 <= Z.of_nat 1 + 1).
Proof.
  apply (remaining_counts_down "u" {| maxRequests := 2; windowMs := 1000 |}
           0 [10; 20] ∅ 1).
  - reflexivity.
  - reflexivity.
  - repeat constructor; vm_compute; discriminate.
  - vm_compute. lia.
Defined.

(** X30.  An identifier that names a member the store object inherits
    from [Object.prototype] ([constructor], [toString], [__proto__], ...)
    is never rate limited: in a store the process can reach, every call
    for it reports [remaining] as [NaN] and [reset] as [undefined], which
    [isRateLimited] does not read as a rejection, and leaves the store as
    it is. *)
Theorem inherited_name_never_limited now key config (store : gmap string window) :
  reachable store ->
  inherited key = true ->
  checkRateLimit now key config store
  = ({| limit := maxRequests config; remaining := NaN; reset := Undefined |},
     store) /\
  isRateLimited (checkRateLimit now key config store).1 = false.
Proof.
  intros Hr Hi.
  assert (checkRateLimit now key config store = (info_inherited config, store))
    as ->.
  { apply checkRateLimit_inherited; [exact Hi|].
    destruct (store !! key) as [w|] eqn:E; [|reflexivity].
    destruct (reachable_own _ Hr key w E) as [Hi' _]. congruence. }
  split; reflexivity.
Qed.

Lemma inherited_name_never_limited_witness :
  checkRateLimit 5 "constructor" DEFAULT_RATE_LIMIT ∅
  = ({| limit := maxRequests DEFAULT_RATE_LIMIT; remaining := NaN;
        reset := Undefined |}, ∅) /\
  isRateLimited (checkRateLimit 5 "constructor" DEFAULT_RATE_LIMIT ∅).1 = false.
Proof.
  apply (inherited_name_never_limited 5 "constructor" DEFAULT_RATE_LIMIT ∅).
  - constructor.
  - reflexivity.
Defined.

End RateLimitLaws.

(** ** Authentication and the administrator check *)

Module AuthLaws.
Import Auth AuthFacts.

(** X5.  The two administrator checks agree: [requireAdmin] returns a user
    exactly when [requireAuth] returns that user and [isAdmin] answers
    [true] for the user's id. *)
Theorem requireAdmin_iff supabase u :
  requireAdmin supabase = Return u <->
  requireAuth supabase = Return u /\ isAdmin supabase (id u) = true.
Proof.
  unfold requireAdmin, isAdmin.
  destruct (requireAuth supabase) as [u'|m]; cbn.
  - destruct (String.eqb (getUserRole supabase (id u')) "admin") eqn:E; cbn.
    + split; [intros [= ->]; now rewrite E|now intros [[= ->] _]].
    + split; [discriminate|]. intros [[= ->] H]. congruence.
  - split; [discriminate|]. now intros [H _].
Qed.

(** X6.  The message of the error [requireAdmin] throws tells which check
    failed: ['Not authenticated'] when [getUser] answered with an error or
    without a user, ['Admin access required'] when the user is signed in
    and is not an administrator.  It throws no other message. *)
Theorem requireAdmin_error supabase message :
  requireAdmin supabase = ThrowAuthError message ->
  (message = "Not authenticated" /\
   (auth_error (auth_getUser supabase) <> None \/ user (auth_getUser supabase) = None)) \/
  (message = "Admin access required" /\
   exists u, requireAuth supabase = Return u /\ isAdmin supabase (id u) = false).
Proof.
  unfold requireAdmin, requireAuth, isAdmin.
  destruct (auth_error (auth_getUser supabase)) as [e|] eqn:Ee,
           (user (auth_getUser supabase)) as [u|] eqn:Eu; cbn.
  1,2,4: intros [= <-]; left; split; [reflexivity|]; auto; left; discriminate.
  destruct (String.eqb (getUserRole supabase (id u)) "admin") eqn:E; cbn;
    [discriminate|].
  intros [= <-]. right. split; [reflexivity|]. now exists u.
Qed.

Lemma requireAdmin_error_witness :
  ("Admin access required" = "Not authenticated" /\
   (auth_error (auth_getUser (client_with (Some "user"))) <> None \/
    user (auth_getUser (client_with (Some "user"))) = None)) \/
  ("Admin access required" = "Admin access required" /\
   exists u, requireAuth (client_with (Some "user")) = Return u /\
             isAdmin (client_with (Some "user")) (id u) = false).
Proof.
  apply (requireAdmin_error (client_with (Some "user")) "Admin access required").
  reflexivity.
Defined.

End AuthLaws.

(** ** Fenced replies ([src/lib/gemini.ts]) *)

Module GeminiFences.
Import Types Gemini Markdown ExtractJsonFacts.

Local Open Scope string_scope.

(** X7.  A reply that is one Markdown code block whose body holds no
    backtick is unwrapped: with the fence [```json] the extracted text is
    the body; with the bare fence [```] it is the body followed by the line
    feed that stood before the closing fence. *)
Theorem extractJson_fenced body :
  fence_free body ->
  extractJson (fenced "json" body) = body /\
  extractJson (fenced "" body) = body ++ String LF "".
Proof. exact (extractJson_fenced_body body). Qed.

Lemma extractJson_fenced_witness :
  extractJson (fenced "json" "{}") = "{}" /\
  extractJson (fenced "" "{}") = "{}" ++ String LF "".
Proof.
  apply (extractJson_fenced "{}").
  intros [H|[H|H]]; [discriminate H|discriminate H|exact H].
Defined.

Local Close Scope string_scope.

(** X8.  The two revisions of [generateChatResponse] meet on fenced
    replies: the earlier one, given a model that wraps its reply in a
    [```json] block, settles as the later one does on a model that sends
    the body alone. *)
Theorem fenced_reply_as_direct chatModel JSON_parse userQuery candidates body :
  fence_free body ->
  chatModel userQuery candidates = inr (fenced "json" body) ->
  generateChatResponse chatModel JSON_parse userQuery candidates
  = generateChatResponse_direct (fun _ _ => inr body) JSON_parse
      userQuery candidates.
Proof.
  intros Hbody Hreply.
  unfold generateChatResponse, generateChatResponse_direct, attempt, attempt_direct.
  rewrite Hreply. cbn [try_bind].
  now rewrite (proj1 (extractJson_fenced_body body Hbody)).
Qed.

Lemma fenced_reply_as_direct_witness :
  generateChatResponse (fun _ _ => inr (fenced "json" fabricated_reply))
    JSON_parse_text "red car" one_candidate
  = generateChatResponse_direct (fun _ _ => inr fabricated_reply)
      JSON_parse_text "red car" one_candidate.
Proof.
  apply (fenced_reply_as_direct
           (fun _ _ => inr (fenced "json" fabricated_reply)) JSON_parse_text
           "red car" one_candidate fabricated_reply).
  - vm_compute. intuition discriminate.
  - reflexivity.
Defined.

End GeminiFences.

(** ** The chat route *)

Module ChatRouteFacts.
Import Types ChatTypes Js ChatRoute.

Ltac run :=
  cbn -[RateLimit.checkRateLimit RateLimit.isRateLimited rerank Pinecone.queryVectors
        String.append decimal total_label ChatRequestSchema message_or_default
        authHeader_of last filter] in *.

Ltac oracle x :=
  match x with
  | authHeader_of _ => idtac
  | Auth.requireAuth _ => idtac
  | RateLimit.checkRateLimit _ _ _ _ => idtac
  | RateLimit.isRateLimited _ => idtac
  | RateLimit.reset _ => idtac
  | request_json _ => idtac
  | ChatRequestSchema _ => idtac
  | last _ => idtac
  | generateEmbedding _ _ => idtac
  | Pinecone.queryVectors _ _ _ _ => idtac
  | generateChatResponse _ _ _ => idtac
  end.

Ltac step :=
  match goal with
  | |- context [match ?x with _ => _ end] => oracle x; destruct x eqn:?
  end.

Ltac paths :=
  unfold POST, processRequest, try_catch, steps, bind, requireAuth, checkRateLimit, await,
    Date_toISOString;
  repeat (run; step); run.

Lemma last_filter_Some {A} (P : A -> Prop) `{!forall a, Decision (P a)} l x :
  last (filter P l) = Some x ->
  exists before after,
    l = before ++ x :: after /\ P x /\ Forall (fun y => ~ P y) after.
Proof.
  induction l as [|a l IH] using rev_ind; [discriminate|].
  rewrite filter_app, filter_cons, filter_nil.
  destruct (decide (P a)) as [Pa|Pa].
  - rewrite last_snoc. intros [= ->]. exists l, []. auto.
  - rewrite app_nil_r. intros (before & after & -> & Px & Hafter)%IH.
    exists before, (after ++ [a]). rewrite <- app_assoc. split; [reflexivity|].
    split; [exact Px|]. apply Forall_app. split; [exact Hafter|]. now constructor.
Qed.

Lemma authHeader_of_Some header authHeader :
  authHeader_of header = Some authHeader ->
  header = Some authHeader /\ authHeader <> "".
Proof.
  destruct header as [h|]; [|discriminate]. cbn.
  destruct (String.eqb_spec h ""); [discriminate|]. now intros [= <-].
Qed.

Section RequestFacts.
Context {vector : Type} (env : Env vector) (store0 : gmap string RateLimit.window).

(** The state a request leaves behind. *)
#[local] Abbreviation final := (POST env store0).2.

(** X9.  The stream protocol of the chat route: whatever the request and
    its collaborators do, [POST] throws nothing, the stream is closed in
    the end, and what was written to it is a run of status events
    followed by exactly one terminal event, an error or the result. *)
Theorem POST_stream_protocol :
  exists statuses terminal w,
    POST env store0 = (inr tt, w) /\
    closed w = true /\
    events final = map StatusEvent statuses ++ [terminal] /\
    is_terminal terminal = true.
Proof.
  paths.
  all: try (eexists [], _, _; split; [reflexivity|]; repeat split; fail).
  all: try (eexists [_], _, _; split; [reflexivity|]; repeat split; fail).
  all: try (eexists [_; _], _, _; split; [reflexivity|]; repeat split; fail).
  all: try (eexists [_; _; _; _; _], _, _; split; [reflexivity|]; repeat split; fail).
Qed.

(** X10.  No collaborator is called (no row inserted, no embedding, no
    search, no generation) unless the request passed every gate: a
    non-empty authorization header, a signed-in user, a rate-limit answer
    that is not limited, a body that parses and validates, and a user
    message in it. *)
Theorem POST_gates :
  effects final <> [] ->
  exists authHeader user body data latest,
    authorization env = Some authHeader /\ authHeader <> "" /\
    Auth.requireAuth (supabase env) = Auth.Return user /\
    RateLimit.isRateLimited
      (RateLimit.checkRateLimit (clock_limit env) (Auth.id user)
         RateLimit.DEFAULT_RATE_LIMIT store0).1 = false /\
    request_json env = inr body /\
    ChatRequestSchema (Some body) = Some data /\
    last (filter (fun m => role m = RoleUser) (messages data)) = Some latest.
Proof.
  paths; intros H; try (now contradiction H).
  all: match goal with
       | Hh : authHeader_of _ = Some _ |- _ =>
           apply authHeader_of_Some in Hh as [Hh Hne]
       end.
  all: eexists _, _, _, _, _; repeat split; try eassumption; try reflexivity.
  all: match goal with H : RateLimit.checkRateLimit _ _ _ _ = _ |- _ => now rewrite H end.
Qed.

(** X11.  The rate-limit store after a request: one call of
    [checkRateLimit] for the id of the signed-in user has been counted, and
    the store is untouched when the header is missing or the user is not
    signed in.  A request that is rejected later (bad body, failing
    collaborator) is counted all the same. *)
Theorem POST_store :
  store final =
    match authHeader_of (authorization env), Auth.requireAuth (supabase env) with
    | Some _, Auth.Return user =>
        (RateLimit.checkRateLimit (clock_limit env) (Auth.id user)
           RateLimit.DEFAULT_RATE_LIMIT store0).2
    | _, _ => store0
    end.
Proof.
  paths; try reflexivity.
  all: match goal with H : RateLimit.checkRateLimit _ _ _ _ = _ |- _ => now rewrite H end.
Qed.

(** X12.  The query that is embedded is the content of the last message of
    the conversation whose role is [user]: no user message follows it in
    the validated body. *)
Theorem POST_embeds_latest_user_message q :
  GenerateEmbedding q ∈ effects final ->
  exists body data before latest after,
    request_json env = inr body /\
    ChatRequestSchema (Some body) = Some data /\
    messages data = before ++ latest :: after /\
    role latest = RoleUser /\ content latest = q /\
    Forall (fun m => role m <> RoleUser) after.
Proof.
  paths; intros H; try (now apply elem_of_nil in H).
  all: match goal with H : last _ = Some _ |- _ =>
         apply last_filter_Some in H as (before & after & Hm & Hr & Ha) end.
  all: eexists _, _, before, _, after; repeat split; try eassumption.
  all: repeat (apply elem_of_cons in H as [H|H]; try discriminate H);
       try (now apply elem_of_nil in H); congruence.
Qed.

Ltac paths_index :=
  unfold POST, processRequest, try_catch, steps, bind, requireAuth, checkRateLimit,
    await, Pinecone.queryVectors, Date_toISOString;
  repeat (run; first [step | match goal with
    | |- context [match index_query ?e ?r with _ => _ end] =>
        destruct (index_query e r) eqn:? end]); run.

Ltac members H :=
  repeat (apply elem_of_cons in H as [H|H]; [try discriminate H|]);
  try (now apply elem_of_nil in H).

(** X13.  Chat history and stream agree: the stream carries a result
    exactly when an assistant row with that message and those assets was
    handed to the insert; and the first call of a request that calls
    anything is the insert of the user row, for the signed-in user. *)
Theorem POST_history :
  (forall m a,
     ResultEvent m a ∈ events final <->
     exists uid,
       InsertChatMessage
         {| row_user_id := uid; row_role := RoleAssistant;
            row_content := m; row_assets := Some a |} ∈ effects final) /\
  (effects final <> [] ->
   exists user latest rest,
     Auth.requireAuth (supabase env) = Auth.Return user /\
     effects final =
       InsertChatMessage
         {| row_user_id := Auth.id user; row_role := RoleUser;
            row_content := content latest; row_assets := None |} :: rest).
Proof.
  paths.
  all: split; [intros msg ast; split; [intros H|intros [uid H]]; members H|
               intros H; try (now contradiction H); eauto].
  - injection H as -> ->. eexists. do 5 right. left.
  - injection H as _ -> ->. do 5 right. left.
Qed.

(** X14.  A result on the stream is what the response generator returned
    for the embedded query and the re-ranked matches of the index, of
    which it is handed at most 10. *)
Theorem POST_result m a :
  ResultEvent m a ∈ events final ->
  exists userQuery queryEmbedding results value,
    generateEmbedding env userQuery = inr queryEmbedding /\
    Pinecone.queryVectors (index_query env) queryEmbedding 30 approved
      = inr results /\
    generateChatResponse env userQuery (rerank (clock_rank env) results)
      = Gemini.Return value /\
    assistant_message value = m /\ assets value = a /\
    (length (rerank (clock_rank env) results) <= 10)%nat.
Proof.
  paths; intros H; members H.
  injection H as -> ->. eexists _, _, _, _. repeat split; try eassumption.
  unfold rerank. rewrite length_take. lia.
Qed.

(** X15.  The status events of a request are a prefix of the five labels,
    in their order, with the count of approved assets and the number of
    matches in the second and third; a request that ends with a result
    has sent all five. *)
Theorem POST_statuses :
  exists n,
    statuses_of (events final)
      `prefix_of` status_labels (total_label (toLocaleString env) (totalAssets env)) n /\
    ((exists m a, ResultEvent m a ∈ events final) ->
     statuses_of (events final)
     = status_labels (total_label (toLocaleString env) (totalAssets env)) n).
Proof.
  paths.
  all: match goal with
       | l : list Ranker.candidate |- _ => exists (length l)
       | _ => exists 0%nat
       end.
  all: split; [|intros (msg & ast & H); members H; try reflexivity].
  all: unfold status_labels; cbn [statuses_of omap].
  all: try apply prefix_nil.
  all: repeat apply prefix_cons; try apply prefix_nil; try reflexivity.
Qed.

(** X16.  When the response generator throws, the stream ends with an
    error event carrying its message, no result is sent and no assistant
    row is inserted: the user row is the only one. *)
Theorem POST_generator_failure userQuery candidates message :
  GenerateChatResponse userQuery candidates ∈ effects final ->
  generateChatResponse env userQuery candidates = Gemini.ThrowError message ->
  last (events final) = Some (ErrorEvent (message_or_default message) None) /\
  (forall m a, ResultEvent m a ∉ events final) /\
  (forall row, InsertChatMessage row ∈ effects final -> row_role row = RoleUser).
Proof.
  paths; intros H Hthrow; members H.
  all: injection H as -> ->.
  all: match goal with
       | H1 : generateChatResponse _ _ _ = _, H2 : generateChatResponse _ _ _ = _ |- _ =>
           rewrite H1 in H2; try discriminate H2; injection H2 as ->
       end.
  split; [reflexivity|]. split.
  - intros msg ast H. members H.
  - intros row H. members H. now injection H as ->.
Qed.

(** X17.  Failures of the embedder and of the index.  The message of the
    embedder reaches the client as it is, after the user row has been
    inserted and nothing else called; a failing index is reported as
    ['Failed to query vectors'] after two status events, and the response
    generator is not called. *)
Theorem POST_collaborator_failure :
  (forall userQuery message,
     GenerateEmbedding userQuery ∈ effects final ->
     generateEmbedding env userQuery = inl message ->
     last (events final) = Some (ErrorEvent (message_or_default message) None) /\
     exists uid,
       effects final =
         [InsertChatMessage
            {| row_user_id := uid; row_role := RoleUser;
               row_content := userQuery; row_assets := None |};
          GenerateEmbedding userQuery]) /\
  ((forall request, exists detail, index_query env request = inl detail) ->
   QueryVectors 30 approved ∈ effects final ->
   last (events final) = Some (ErrorEvent "Failed to query vectors" None) /\
   length (statuses_of (events final)) = 2%nat /\
   (forall q c, GenerateChatResponse q c ∉ effects final)).
Proof.
  split.
  - paths; intros q' msg H Hthrow; members H.
    all: injection H as ->.
    all: match goal with
         | H1 : generateEmbedding _ _ = _, H2 : generateEmbedding _ _ = _ |- _ =>
             rewrite H1 in H2; try discriminate H2; injection H2 as ->
         end.
    split; [reflexivity|]. eexists. reflexivity.
  - paths_index; intros Hfail H; members H.
    all: match goal with
         | H1 : index_query ?e ?r = inr _ |- _ =>
             destruct (Hfail r) as [d Hd]; rewrite Hd in H1; discriminate H1
         | _ => idtac
         end.
    split; [reflexivity|]. split; [reflexivity|].
    intros q' c' H'. members H'.
Qed.

(** X18.  Scenario A: when the index has no match (an empty or a missing
    [matches]), the route still announces ["Found 0 potential matches"],
    calls the response generator with an empty candidate list, and ends
    the stream with whatever it returns. *)
Theorem POST_no_matches :
  (forall request,
     index_query env request = inr None \/ index_query env request = inr (Some [])) ->
  QueryVectors 30 approved ∈ effects final ->
  StatusEvent "Found 0 potential matches" ∈ events final /\
  exists userQuery,
    GenerateChatResponse userQuery [] ∈ effects final /\
    (forall value,
       generateChatResponse env userQuery [] = Gemini.Return value ->
       last (events final)
       = Some (ResultEvent (assistant_message value) (assets value))).
Proof.
  paths_index; intros Hempty H; members H.
  all: match goal with
       | H1 : index_query ?e ?r = _ |- _ =>
           destruct (Hempty r) as [Hd|Hd]; rewrite Hd in H1; try discriminate H1;
           injection H1 as <-
       end.
  all: cbn in *.
  all: split; [do 2 right; left|].
  all: eexists; split; [do 4 right; left|].
  all: intros v' Hv; congruence.
Qed.

End RequestFacts.

Lemma POST_gates_witness :
  exists authHeader user body data latest,
    authorization env_ok = Some authHeader /\ authHeader <> "" /\
    Auth.requireAuth (supabase env_ok) = Auth.Return user /\
    RateLimit.isRateLimited
      (RateLimit.checkRateLimit (clock_limit env_ok) (Auth.id user)
         RateLimit.DEFAULT_RATE_LIMIT ∅).1 = false /\
    request_json env_ok = inr body /\
    ChatRequestSchema (Some body) = Some data /\
    last (filter (fun m => role m = RoleUser) (messages data)) = Some latest.
Proof. apply (POST_gates env_ok ∅). vm_compute. discriminate. Defined.

Lemma POST_embeds_latest_user_message_witness :
  exists body data before latest after,
    request_json env_ok = inr body /\
    ChatRequestSchema (Some body) = Some data /\
    messages data = before ++ latest :: after /\
    role latest = RoleUser /\ content latest = "latest SUV" /\
    Forall (fun m => role m <> RoleUser) after.
Proof.
  apply (POST_embeds_latest_user_message env_ok ∅ "latest SUV").
  vm_compute. repeat constructor.
Defined.

Lemma POST_result_witness :
  exists userQuery queryEmbedding results value,
    generateEmbedding env_ok userQuery = inr queryEmbedding /\
    Pinecone.queryVectors (index_query env_ok) queryEmbedding 30 approved
      = inr results /\
    generateChatResponse env_ok userQuery (rerank (clock_rank env_ok) results)
      = Gemini.Return value /\
    assistant_message value = assistant_message Gemini.fabricated_value /\
    assets value = assets Gemini.fabricated_value /\
    (length (rerank (clock_rank env_ok) results) <= 10)%nat.
Proof.
  apply (POST_result env_ok ∅ (assistant_message Gemini.fabricated_value)
           (assets Gemini.fabricated_value)).
  vm_compute. repeat constructor.
Defined.

Lemma POST_generator_failure_witness :
  last (events (POST env_generator_down ∅).2)
    = Some (ErrorEvent (message_or_default Gemini.generic_message) None) /\
  (forall m a, ResultEvent m a ∉ events (POST env_generator_down ∅).2) /\
  (forall row,
     InsertChatMessage row ∈ effects (POST env_generator_down ∅).2 ->
     row_role row = RoleUser).
Proof.
  apply (POST_generator_failure env_generator_down ∅ "latest SUV"
           (rerank Ranker.sample_now Ranker.sample_candidates)
           Gemini.generic_message).
  - vm_compute. repeat constructor.
  - reflexivity.
Defined.

Lemma POST_collaborator_failure_witness :
  last (events (POST env_index_down ∅).2)
    = Some (ErrorEvent "Failed to query vectors" None) /\
  length (statuses_of (events (POST env_index_down ∅).2)) = 2%nat /\
  (forall q c, GenerateChatResponse q c ∉ effects (POST env_index_down ∅).2).
Proof.
  apply (proj2 (POST_collaborator_failure env_index_down ∅)).
  - intros request. eexists. reflexivity.
  - vm_compute. repeat constructor.
Defined.

Lemma POST_no_matches_witness :
  StatusEvent "Found 0 potential matches" ∈ events (POST env_no_matches ∅).2 /\
  exists userQuery,
    GenerateChatResponse userQuery [] ∈ effects (POST env_no_matches ∅).2 /\
    (forall value,
       generateChatResponse env_no_matches userQuery [] = Gemini.Return value ->
       last (events (POST env_no_matches ∅).2)
       = Some (ResultEvent (assistant_message value) (assets value))).
Proof.
  apply (POST_no_matches env_no_matches ∅).
  - intros request. left. reflexivity.
  - vm_compute. repeat constructor.
Defined.

Import Ranker RankerFacts.

Lemma or_else_truthy a b : truthy a = true -> or_else a b = a.
Proof. destruct a as [|q]; cbn; [discriminate|]. now destruct (Qeq_bool q 0). Qed.


Lemma insert_map {A B} (f : A -> B) cmp1 cmp2 a l :
  (forall a b, cmp2 (f a) (f b) = cmp1 a b) ->
  insert cmp2 (f a) (map f l) = map f (insert cmp1 a l).
Proof.
  intros H. induction l as [|b l IH]; cbn; [reflexivity|].
  rewrite H. destruct (positive (cmp1 a b)); cbn; [now rewrite IH|reflexivity].
Qed.

Lemma sort_map {A B} (f : A -> B) cmp1 cmp2 l :
  (forall a b, cmp2 (f a) (f b) = cmp1 a b) ->
  sort cmp2 (map f l) = map f (sort cmp1 l).
Proof.
  intros H. induction l as [|a l IH]; cbn; [reflexivity|].
  fold (sort cmp2 (map f l)). fold (sort cmp1 l).
  rewrite IH. now apply insert_map.
Qed.

Lemma score_result_truthy now c :
  truthy (image_purchase_date (Ranker.metadata c)) = true ->
  score_result now c = of_ranked now (assign now c).
Proof.
  intros H. unfold score_result, of_ranked, assign, Ranker.recencyScore, age.
  cbn. now rewrite (or_else_truthy _ _ H).
Qed.

(** X19.  The re-ranking of the route is the ranking snippet of the master
    prompt on every result list whose acquisition timestamps are numbers
    other than 0: same candidates, same scores, same order, same cut. *)
Theorem rerank_agrees_with_snippet now results :
  Forall (fun c => truthy (image_purchase_date (Ranker.metadata c)) = true) results ->
  rerank now results = map (of_ranked now) (rank now results).
Proof.
  intros H. unfold rerank, rank.
  rewrite fmap_take. f_equal.
  rewrite <- (sort_map (of_ranked now) Ranker.comparefn ChatRoute.comparefn)
    by reflexivity.
  f_equal. rewrite <- list_fmap_compose.
  apply Forall_fmap_ext_1. eapply Forall_impl; [exact H|].
  intros c Hc. now apply score_result_truthy.
Qed.

Lemma rerank_agrees_with_snippet_witness :
  rerank sample_now sample_candidates
  = map (of_ranked sample_now) (rank sample_now sample_candidates).
Proof.
  apply (rerank_agrees_with_snippet sample_now sample_candidates).
  repeat constructor.
Defined.






End ChatRouteFacts.

(** ** Image analysis *)

Module VisionFacts.
Import Types Vision.

Lemma mapM_strings (l : list string) :
  mapM (fun j => z_string (Some j)) (map JString l) = Some l.
Proof.
  apply mapM_Some, Forall2_fmap_l, Forall_Forall2_diag, Forall_true.
  reflexivity.
Qed.

Lemma z_array_strings (l : list string) :
  z_array z_string (Some (strings l)) = Some l.
Proof. apply mapM_strings. Qed.

(** The schema reads a validated response back from the object it is. *)
Lemma vision_round_trip g :
  GeminiVisionResponseSchema (Some (json_of_vision g)) = Some g.
Proof.
  destruct g as [summary subjects mood [e t w] [o s f] [c n] keywords].
  cbn -[z_array strings]. rewrite !z_array_strings. reflexivity.
Qed.

Lemma analyzeImage_message visionModel JSON_parse imageBuffer mimeType message :
  analyzeImage visionModel JSON_parse imageBuffer mimeType = ThrowError message ->
  message = "Failed to analyze image".
Proof.
  unfold analyzeImage.
  destruct (Gemini.try_bind _ _); [now intros [= <-]|discriminate].
Qed.

Section AnalyzerFacts.
Variable visionModel : string -> string -> Gemini.thrown + string.
Variable JSON_parse : string -> Gemini.thrown + json.

(** X22.  [analyzeImage] returns a value exactly when the model answered,
    the extracted text parsed and the parsed value passed the schema, and
    the value is then the validated one; in every other case it throws
    ['Failed to analyze image'] and nothing else.  A reply that parses to
    the object of a response [g] is returned as [g]. *)
Theorem analyzeImage_outcome imageBuffer mimeType :
  (forall value,
     analyzeImage visionModel JSON_parse imageBuffer mimeType = Return value <->
     exists responseText parsed,
       visionModel imageBuffer mimeType = inr responseText /\
       JSON_parse (Gemini.extractJson responseText) = inr parsed /\
       GeminiVisionResponseSchema (Some parsed) = Some value) /\
  (forall message,
     analyzeImage visionModel JSON_parse imageBuffer mimeType = ThrowError message ->
     message = "Failed to analyze image") /\
  (forall responseText g,
     visionModel imageBuffer mimeType = inr responseText ->
     JSON_parse (Gemini.extractJson responseText) = inr (json_of_vision g) ->
     analyzeImage visionModel JSON_parse imageBuffer mimeType = Return g).
Proof.
  unfold analyzeImage, validate. split; [|split].
  - intros value.
    destruct (visionModel imageBuffer mimeType) as [e|text] eqn:Em;
      cbn [Gemini.try_bind].
    { split; [discriminate|]. intros (t & p & H & _). discriminate H. }
    destruct (JSON_parse (Gemini.extractJson text)) as [e|parsed] eqn:Ep;
      cbn [Gemini.try_bind].
    { split; [discriminate|]. intros (t & p & [= <-] & H & _). congruence. }
    destruct (GeminiVisionResponseSchema (Some parsed)) as [v|] eqn:E.
    + split.
      * intros [= <-]. now exists text, parsed.
      * intros (t & p & [= <-] & H & Hv). congruence.
    + split; [discriminate|]. intros (t & p & [= <-] & H & Hv). congruence.
  - intros message. apply analyzeImage_message.
  - intros text g -> . cbn [Gemini.try_bind]. intros ->. cbn [Gemini.try_bind].
    now rewrite vision_round_trip.
Qed.

End AnalyzerFacts.

End VisionFacts.

(** ** The description route *)

Module DescribeRouteFacts.
Import Types Js DescribeRoute.

Lemma schema_build_response fileName previewFileName previewUrl g mimeType :
  GeneratedAssetDataSchema
    (Some (build_response fileName previewFileName previewUrl g mimeType))
  = Some {| storage_path := fileName;
            preview_path := previewFileName;
            preview_url := previewUrl;
            llm_description := llmDescription g;
            llm_metadata := g;
            tags := Vision.subjects g ++ Vision.mood g ++ Vision.keywords g;
            mime_type := mimeType |}.
Proof.
  unfold build_response, GeneratedAssetDataSchema.
  cbn -[z_array Vision.strings Vision.GeminiVisionResponseSchema
        Vision.json_of_vision llmDescription].
  now rewrite VisionFacts.vision_round_trip, VisionFacts.z_array_strings.
Qed.

(** X23.  The validation at the end of the description route cannot fail:
    the schema accepts the response object the route builds and reads
    back every field as it was put in, with the analysis unchanged and
    the tags the subjects, the moods and the keywords, in this order. *)
Theorem validation_never_fails fileName previewFileName previewUrl g mimeType :
  exists validated,
    GeneratedAssetDataSchema
      (Some (build_response fileName previewFileName previewUrl g mimeType))
    = Some validated /\
    storage_path validated = fileName /\
    preview_path validated = previewFileName /\
    preview_url validated = previewUrl /\
    llm_description validated = llmDescription g /\
    llm_metadata validated = g /\
    tags validated = Vision.subjects g ++ Vision.mood g ++ Vision.keywords g /\
    mime_type validated = mimeType.
Proof.
  eexists. split; [apply schema_build_response|]. repeat split.
Qed.

(** *** File extensions *)

Lemma split_nonempty sep s : split sep s <> [].
Proof.
  destruct s as [|c s]; cbn; [discriminate|].
  destruct (Ascii.eqb c sep); [discriminate|].
  destruct (split sep s); discriminate.
Qed.

Lemma split_segments sep s :
  Forall (fun segment => ~ In sep (String.list_ascii_of_string segment))
         (split sep s).
Proof.
  induction s as [|c s IH]; cbn.
  - constructor; [|constructor]. intros [].
  - destruct (Ascii.eqb_spec c sep) as [->|Hc].
    + constructor; [intros []|exact IH].
    + destruct (split sep s) as [|segment segments]; [repeat constructor|].
      * cbn. intros [H|[]]. congruence.
      * apply Forall_cons in IH as [Hs Hrest]. constructor; [|exact Hrest].
        cbn. intros [H|H]; [congruence|now apply Hs].
Qed.

Lemma split_plain sep s :
  ~ In sep (String.list_ascii_of_string s) -> split sep s = [s].
Proof.
  induction s as [|c s IH]; cbn; [reflexivity|]. intros H.
  destruct (Ascii.eqb_spec c sep) as [->|Hc]; [exfalso; apply H; now left|].
  rewrite IH; [reflexivity|]. intros Hin. apply H. now right.
Qed.

Lemma split_app sep a b :
  exists first rest,
    split sep (a ++ String sep b)%string = (first :: rest) ++ split sep b.
Proof.
  induction a as [|c a (first & rest & IH)].
  - exists EmptyString, [].
    change ("" ++ String sep b)%string with (String sep b).
    cbn [split]. now rewrite Ascii.eqb_refl.
  - change (String c a ++ String sep b)%string with (String c (a ++ String sep b)).
    cbn [split]. rewrite IH. destruct (Ascii.eqb c sep).
    + now exists EmptyString, (first :: rest).
    + now exists (String c first), rest.
Qed.

Lemma last_split_app sep a b :
  last (split sep (a ++ String sep b)%string) = last (split sep b).
Proof.
  destruct (split_app sep a b) as (first & rest & ->).
  rewrite last_app. destruct (last (split sep b)) eqn:E; [reflexivity|].
  apply last_None in E. now apply split_nonempty in E.
Qed.

(** X24.  The extension under which an upload is stored: never empty and
    without a dot; for a name [stem.ext] it is [ext], and ["jpg"] when
    [ext] is empty; for a name without a dot it is the whole name, and
    ["jpg"] when the name is empty. *)
Theorem fileExt_cases :
  (forall name, fileExt name <> "" /\ ~ dotted (fileExt name)) /\
  (forall stem ext, ~ dotted ext ->
     fileExt (stem ++ String "." ext)
     = if String.eqb ext "" then "jpg" else ext) /\
  (forall name, ~ dotted name ->
     fileExt name = if String.eqb name "" then "jpg" else name).
Proof.
  split; [|split].
  - intros name. unfold fileExt.
    destruct (last (split "." name)) as [ext|] eqn:E.
    + destruct (String.eqb_spec ext "") as [->|Hne].
      * split; [discriminate|]. unfold dotted. cbn. intuition discriminate.
      * split; [exact Hne|].
        apply last_Some_elem_of in E.
        exact (proj1 (Forall_forall _ _) (split_segments "." name) ext E).
    + split; [discriminate|]. unfold dotted. cbn. intuition discriminate.
  - intros stem ext Hext. unfold fileExt.
    now rewrite last_split_app, split_plain.
  - intros name Hname. unfold fileExt. now rewrite split_plain.
Qed.

(** *** The route *)

Ltac oracle x :=
  match x with
  | authHeader_of _ => idtac
  | Auth.requireAdmin _ => idtac
  | formData_image _ => idtac
  | negb (includes _ _) => idtac
  | upload_full_error _ => idtac
  | sharp _ _ _ _ _ _ => idtac
  | upload_preview_error _ => idtac
  | Vision.analyzeImage _ _ _ _ => idtac
  end.

Ltac step :=
  match goal with
  | |- context [match ?x with _ => _ end] => oracle x; destruct x eqn:?
  | o : option File |- _ => destruct o
  end.

Ltac paths :=
  unfold POST, ImageProcessing.generatePreview;
  repeat (cbv beta iota zeta; step);
  cbv beta iota zeta;
  try rewrite schema_build_response;
  cbn [fst snd status content json_error].

Ltac members H :=
  repeat (apply elem_of_cons in H as [H|H]; [try discriminate H|]);
  try (now apply elem_of_nil in H).

Lemma filter_out_self (x : string) : filter (fun p => p ∉ [x]) [x] = [].
Proof.
  rewrite filter_cons, decide_False; [reflexivity|].
  intros H. apply H. now left.
Qed.

Lemma requireAdmin_messages supabase message :
  Auth.requireAdmin supabase = Auth.ThrowAuthError message ->
  message = "Not authenticated" \/ message = "Admin access required".
Proof.
  unfold Auth.requireAdmin, Auth.requireAuth.
  destruct (Auth.auth_error (Auth.auth_getUser supabase)),
           (Auth.user (Auth.auth_getUser supabase)); cbn;
    try (intros [= <-]; now left).
  destruct (negb _); [|discriminate]. intros [= <-]. now right.
Qed.

Lemma handler_status message :
  status (handler message) = 403 \/ status (handler message) = 500.
Proof. unfold handler. destruct (String.eqb _ _); cbn; auto. Qed.

Section RouteFacts.
Variable env : Env.

(** X25.  The administrator gate of the description route.  The status is
    401 exactly when the authorization header is missing or empty; a
    signed-in user who is not an administrator is answered 403; and
    nothing is uploaded unless [requireAdmin] returned. *)
Theorem describe_admin_gate :
  (status (POST env).1 = 401 <-> authHeader_of (authorization env) = None) /\
  (forall authHeader user,
     authHeader_of (authorization env) = Some authHeader ->
     Auth.requireAuth (supabase env) = Auth.Return user ->
     Auth.isAdmin (supabase env) (Auth.id user) = false ->
     POST env = (json_error 403 "Admin access required", [])) /\
  ((POST env).2 <> [] ->
   exists user, Auth.requireAdmin (supabase env) = Auth.Return user).
Proof.
  split; [|split].
  - paths; split; try reflexivity; try discriminate.
    all: intros H;
      match goal with
      | H : context [handler ?m] |- _ =>
          destruct (handler_status m) as [E|E]; rewrite E in H; discriminate H
      end.
  - intros authHeader user Hh Hu Ha. unfold POST, Auth.requireAdmin, Auth.isAdmin in *.
    rewrite Hh, Hu. cbn. now rewrite Ha.
  - paths; intros H; try (now contradiction H); eauto.
Qed.

(** What the request leaves behind. *)
#[local] Abbreviation answer := (POST env).1.
#[local] Abbreviation calls := (POST env).2.

(** X26.  What the description route leaves in the buckets.  A preview is
    never left without its full image.  A full image is left behind only
    by a request that succeeds, or whose preview generation or image
    analysis failed (these two failures come after the uploads and remove
    nothing), or whose removal failed.  A removal is attempted only when
    the upload of the preview failed, on the full image, and the route
    answers 500 with the same message whether the removal worked or not:
    the full image is gone exactly when it did. *)
Theorem describe_storage :
  (left_in "assets-preview" calls <> [] -> left_in "assets-full" calls <> []) /\
  (left_in "assets-full" calls <> [] ->
   status answer = 200 \/
   content answer = ErrorBody "Failed to generate preview image" \/
   content answer = ErrorBody "Failed to analyze image" \/
   (content answer = ErrorBody "Failed to upload preview image" /\
    exists paths error, Remove "assets-full" paths (Some error) ∈ calls)) /\
  (forall bucket paths error,
     Remove bucket paths error ∈ calls ->
     bucket = "assets-full" /\
     error = remove_full_error env /\
     answer = json_error 500 "Failed to upload preview image" /\
     left_in "assets-preview" calls = [] /\
     (left_in "assets-full" calls = [] <-> error = None)).
Proof.
  split; [|split].
  - paths; cbn -[filter apply_effect]; unfold left_in; cbn -[filter];
      try destruct (remove_full_error env); cbn -[filter];
      try (intros H; now contradiction H); discriminate.
  - paths.
    all: try (left; reflexivity).
    all: try (right; left; reflexivity).
    all: try match goal with
         | H : Vision.analyzeImage _ _ _ _ = Vision.ThrowError _ |- _ =>
             apply VisionFacts.analyzeImage_message in H as ->;
             intros _; right; right; left; reflexivity
         end.
    all: unfold left_in; cbn -[filter]; try (intros H; now contradiction H).
    destruct (remove_full_error env) as [e|] eqn:Hremove; cbn -[filter].
    + intros _. do 3 right. split; [reflexivity|].
      exists [(uuid_full env +:+ "." +:+ fileExt (name f))%string], e.
      do 2 right. left.
    + rewrite filter_out_self. intros H. exfalso. now apply H.
  - intros bucket paths error. paths; intros H; members H.
    injection H as -> -> ->.
    repeat split; unfold left_in; destruct (remove_full_error env); cbn -[filter];
      try rewrite filter_out_self; try reflexivity;
      intros; try reflexivity; discriminate.
Qed.

(** X27.  A successful answer of the description route names exactly the
    two objects it stored, under the two generated identifiers, and
    carries the analysis of the uploaded bytes; the stored type is one of
    the three accepted image types. *)
Theorem describe_success validated :
  content answer = Generated validated ->
  status answer = 200 /\
  left_in "assets-full" calls = [storage_path validated] /\
  left_in "assets-preview" calls = [preview_path validated] /\
  exists imageFile,
    formData_image env = inr (Some imageFile) /\
    mime_type validated = type imageFile /\
    mime_type validated ∈ validTypes /\
    storage_path validated
    = (uuid_full env ++ "." ++ fileExt (name imageFile))%string /\
    preview_path validated = (uuid_preview env ++ "_preview.jpg")%string /\
    preview_url validated = getPublicUrl env (preview_path validated) /\
    Vision.analyzeImage (visionModel env) (JSON_parse env)
      (arrayBuffer imageFile) (type imageFile)
    = Vision.Return (llm_metadata validated) /\
    llm_description validated = llmDescription (llm_metadata validated) /\
    tags validated
    = Vision.subjects (llm_metadata validated)
      ++ Vision.mood (llm_metadata validated)
      ++ Vision.keywords (llm_metadata validated).
Proof.
  paths; try discriminate.
  all: try (unfold handler; destruct (String.eqb _ _); discriminate).
  intros [= <-]. cbn. repeat split. eexists. repeat split; try eassumption.
  match goal with
  | H : negb (includes validTypes _) = false |- _ =>
      apply negb_false_iff in H; unfold includes in H;
      apply existsb_exists in H as (x & Hx & Heq)
  end.
  apply String.eqb_eq in Heq. rewrite Heq. now apply list_elem_of_In.
Qed.

End RouteFacts.

Lemma describe_success_witness :
  status (POST env_described).1 = 200 /\
  left_in "assets-full" (POST env_described).2 = [storage_path described] /\
  left_in "assets-preview" (POST env_described).2 = [preview_path described] /\
  exists imageFile,
    formData_image env_described = inr (Some imageFile) /\
    mime_type described = type imageFile /\
    mime_type described ∈ validTypes /\
    storage_path described
    = (uuid_full env_described ++ "." ++ fileExt (name imageFile))%string /\
    preview_path described = (uuid_preview env_described ++ "_preview.jpg")%string /\
    preview_url described = getPublicUrl env_described (preview_path described) /\
    Vision.analyzeImage (visionModel env_described) (JSON_parse env_described)
      (arrayBuffer imageFile) (type imageFile)
    = Vision.Return (llm_metadata described) /\
    llm_description described = llmDescription (llm_metadata described) /\
    tags described
    = Vision.subjects (llm_metadata described)
      ++ Vision.mood (llm_metadata described)
      ++ Vision.keywords (llm_metadata described).
Proof. apply (describe_success env_described described). vm_compute. reflexivity. Defined.

(** An analysis that fails leaves both uploads in the buckets. *)
Example analysis_failure_leaves_uploads :
  POST (sample_env (inr "no JSON here")) =
    (json_error 500 "Failed to analyze image",
     [ Upload "assets-full" "11111111-1111-4111-8111-111111111111.png"
         "image/png" None;
       Upload "assets-preview" "22222222-2222-4222-8222-222222222222_preview.jpg"
         "image/jpeg" None ]) /\
  left_in "assets-full" (POST (sample_env (inr "no JSON here"))).2
  = ["11111111-1111-4111-8111-111111111111.png"].
Proof. split; vm_compute; reflexivity. Qed.

End DescribeRouteFacts.

(** ** The history route *)

Module HistoryRouteFacts.
Import Types Js HistoryRoute.

Ltac members H :=
  repeat (apply elem_of_cons in H as [H|H]; [try discriminate H|]);
  try (now apply elem_of_nil in H).

Lemma requireAuth_message supabase message :
  Auth.requireAuth supabase = Auth.ThrowAuthError message ->
  message = "Not authenticated".
Proof.
  unfold Auth.requireAuth.
  destruct (Auth.auth_error (Auth.auth_getUser supabase)),
           (Auth.user (Auth.auth_getUser supabase)); cbn; congruence.
Qed.

Ltac oracle x :=
  match x with
  | authHeader_of _ => idtac
  | Auth.requireAuth _ => idtac
  | error _ => idtac
  | delete_messages _ _ => idtac
  end.

Ltac step :=
  match goal with
  | |- context [match ?x with _ => _ end] => oracle x; destruct x eqn:?
  end.

Ltac paths :=
  unfold guarded, GET, DELETE;
  repeat (cbv beta iota zeta; step);
  cbv beta iota zeta;
  repeat match goal with
  | H : Auth.requireAuth _ = Auth.ThrowAuthError _ |- _ =>
      apply requireAuth_message in H; subst
  end;
  cbn [fst snd status content json_error handler].

(** X28.  Both handlers of the history route answer 401 exactly when the
    authorization header is missing or empty or the user is not signed
    in, and every query they make is restricted to the id of the
    signed-in user: a caller reads and deletes no history but their
    own. *)
Theorem history_guarded env :
  guarded GET env /\ guarded DELETE env.
Proof.
  split; paths.
  all: split; [split; [intros Hs; try discriminate Hs; eauto|
                      intros [Hn|[m Hm]]; try discriminate; reflexivity]|].
  all: intros e He; members He; subst; eauto.
Qed.

End HistoryRouteFacts.

(** ** One expired token, three routes *)

Module RoutesFacts.
Import Types Js.

(** X29.  A request with an authorization header whose user is not signed
    in is answered differently by each route: the chat route sends the
    error event ['Not authenticated'] without counting the request
    against any rate limit, the history route answers 401, and the
    description route answers 500, its [catch] block knowing only the
    message of the administrator check.  None of them calls a
    collaborator. *)
Theorem invalid_token_across_routes {vector : Type} (chat : ChatRoute.Env vector)
    (store : gmap string RateLimit.window) (describe : DescribeRoute.Env)
    (history : HistoryRoute.Env) :
  (forall authHeader message,
     authHeader_of (ChatRoute.authorization chat) = Some authHeader ->
     Auth.requireAuth (ChatRoute.supabase chat) = Auth.ThrowAuthError message ->
     ChatRoute.events (ChatRoute.POST chat store).2
     = [ChatRoute.ErrorEvent "Not authenticated" None] /\
     ChatRoute.effects (ChatRoute.POST chat store).2 = [] /\
     ChatRoute.store (ChatRoute.POST chat store).2 = store) /\
  (forall authHeader message,
     authHeader_of (HistoryRoute.authorization history) = Some authHeader ->
     Auth.requireAuth (HistoryRoute.supabase history) = Auth.ThrowAuthError message ->
     HistoryRoute.GET history
     = (HistoryRoute.json_error 401 "Not authenticated", []) /\
     HistoryRoute.DELETE history
     = (HistoryRoute.json_error 401 "Not authenticated", [])) /\
  (forall authHeader message,
     authHeader_of (DescribeRoute.authorization describe) = Some authHeader ->
     Auth.requireAuth (DescribeRoute.supabase describe) = Auth.ThrowAuthError message ->
     DescribeRoute.POST describe
     = (DescribeRoute.json_error 500 "Not authenticated", [])).
Proof.
  split; [|split]; intros authHeader message Hh Hu;
    pose proof (HistoryRouteFacts.requireAuth_message _ _ Hu) as ->.
  - unfold ChatRoute.POST, ChatRoute.processRequest, ChatRoute.try_catch,
      ChatRoute.steps, ChatRoute.bind, ChatRoute.requireAuth.
    rewrite Hh, Hu. repeat split.
  - unfold HistoryRoute.GET, HistoryRoute.DELETE. rewrite Hh, Hu. split; reflexivity.
  - unfold DescribeRoute.POST, Auth.requireAdmin. rewrite Hh, Hu. reflexivity.
Qed.

Lemma invalid_token_across_routes_witness :
  ChatRoute.events (ChatRoute.POST Routes.chat_signed_out ∅).2
  = [ChatRoute.ErrorEvent "Not authenticated" None] /\
  HistoryRoute.GET Routes.history_signed_out
  = (HistoryRoute.json_error 401 "Not authenticated", []) /\
  DescribeRoute.POST Routes.describe_signed_out
  = (DescribeRoute.json_error 500 "Not authenticated", []).
Proof.
  destruct (invalid_token_across_routes Routes.chat_signed_out ∅
              Routes.describe_signed_out Routes.history_signed_out)
    as (Hchat & Hhistory & Hdescribe).
  split; [|split].
  - apply (Hchat "Bearer expired" "Not authenticated"); reflexivity.
  - apply (Hhistory "Bearer expired" "Not authenticated"); reflexivity.
  - apply (Hdescribe "Bearer expired" "Not authenticated"); reflexivity.
Defined.

End RoutesFacts.
